(** * dev-events: Event and Booking record models and the slug lookup route

    A shallow embedding of
      - [database/event.model.ts]   (schema, pre-save normalisation hook),
      - [database/booking.model.ts] (schema, pre-save referential check),
      - [app/api/events/[slug]/route.ts] (slug validation and lookup),
      - [lib/mongodb.ts]            (cached connection bootstrap),
    followed by the properties established about them.

    Conventions.  A JavaScript string is a sequence of code units; the
    embedding covers code units in the Latin-1 range U+0000..U+00FF, one
    [ascii] per code unit.  JavaScript numbers that occur in the code are
    small integers or time values and are embedded as [Z].  Asynchronous
    functions are embedded in sequential, state-passing style: a rejected
    promise is a [Throw], a resolved one an [Ok]. *)

From Stdlib Require Import ZArith Ascii.
From stdpp Require Import gmap strings list fin_maps.

Local Open Scope Z_scope.

(** ** JavaScript string and number primitives used by the sources *)

Module JS.

Definition code (c : ascii) : Z := Z.of_N (N_of_ascii c).

Definition between (lo hi : Z) (c : ascii) : bool :=
  (lo <=? code c) && (code c <=? hi).

(** [\d] *)
Definition is_digit (c : ascii) : bool := between 48 57 c.

(** [[a-z]] and [[A-Z]] *)
Definition is_lower (c : ascii) : bool := between 97 122 c.
Definition is_upper (c : ascii) : bool := between 65 90 c.

(** [\w], that is [[A-Za-z0-9_]] *)
Definition is_word (c : ascii) : bool :=
  is_upper c || is_lower c || is_digit c || (code c =? 95).

(** [\s], also the characters removed by [String.prototype.trim]:
    TAB, LF, VT, FF, CR, SPACE and, in the Latin-1 range, NBSP. *)
Definition is_space (c : ascii) : bool :=
  between 9 13 c || (code c =? 32) || (code c =? 160).

Definition is_hyphen (c : ascii) : bool := code c =? 45.

(** [[a-z0-9]] *)
Definition is_lower_alnum (c : ascii) : bool := is_lower c || is_digit c.

Definition chr (n : Z) : ascii := ascii_of_N (Z.to_N n).

(** [String.prototype.toLowerCase] on one code unit: A-Z, and the
    Latin-1 capitals U+00C0..U+00DE except the multiplication sign. *)
Definition toLowerCase_char (c : ascii) : ascii :=
  if is_upper c then chr (code c + 32)
  else if between 192 222 c && negb (code c =? 215) then chr (code c + 32)
  else c.

Fixpoint toLowerCase (s : string) : string :=
  match s with
  | EmptyString => EmptyString
  | String c s' => String (toLowerCase_char c) (toLowerCase s')
  end.

Fixpoint trimStart (s : string) : string :=
  match s with
  | EmptyString => EmptyString
  | String c s' => if is_space c then trimStart s' else s
  end.

(** [trimEnd] keeps a character when it is not white space or when
    something is left after it. *)
Fixpoint trimEnd (s : string) : string :=
  match s with
  | EmptyString => EmptyString
  | String c s' =>
      match trimEnd s' with
      | EmptyString => if is_space c then EmptyString else String c EmptyString
      | t => String c t
      end
  end.

Definition trim (s : string) : string := trimEnd (trimStart s).

(** [s.replace(/[^...]/g, '')] for a negated character class: the
    characters of the class are the ones kept. *)
Fixpoint remove_not (keep : ascii -> bool) (s : string) : string :=
  match s with
  | EmptyString => EmptyString
  | String c s' =>
      if keep c then String c (remove_not keep s') else remove_not keep s'
  end.

(** [s.replace(/C+/g, r)] for a character class [C]: every maximal run
    of characters of the class is replaced by [r].  [in_run] tells that
    the previous character belonged to the run being replaced. *)
Fixpoint replace_runs_from (cls : ascii -> bool) (r : string)
         (in_run : bool) (s : string) : string :=
  match s with
  | EmptyString => EmptyString
  | String c s' =>
      if cls c then
        if in_run then replace_runs_from cls r true s'
        else r +:+ replace_runs_from cls r true s'
      else String c (replace_runs_from cls r false s')
  end.

Definition replace_runs (cls : ascii -> bool) (r : string) (s : string) : string :=
  replace_runs_from cls r false s.

Definition digit_value (c : ascii) : Z := code c - 48.

Fixpoint parse_digits (acc : Z) (seen : bool) (s : string) : option Z :=
  match s with
  | EmptyString => if seen then Some acc else None
  | String c s' =>
      if is_digit c then parse_digits (10 * acc + digit_value c) true s'
      else if seen then Some acc else None
  end.

(** [parseInt(s, 10)]: leading white space is skipped, an optional sign
    is read, then the longest prefix of decimal digits; [None] is NaN. *)
Definition parseInt10 (s : string) : option Z :=
  match trimStart s with
  | String "-" s' => Z.opp <$> parse_digits 0 false s'
  | String "+" s' => parse_digits 0 false s'
  | s' => parse_digits 0 false s'
  end.

(** [x > n] for a number [x] that may be NaN: false on NaN. *)
Definition gt (x : option Z) (n : Z) : bool :=
  match x with
  | Some v => n <? v
  | None => false
  end.

Definition digit_char (d : Z) : ascii := chr (48 + d).

Fixpoint digits_from (fuel : nat) (n : Z) (acc : string) : string :=
  match fuel with
  | O => acc
  | S fuel' =>
      let acc' := String (digit_char (n mod 10)) acc in
      if n / 10 =? 0 then acc' else digits_from fuel' (n / 10) acc'
  end.

(** [Number.prototype.toString] on an integer. *)
Definition toString (n : Z) : string :=
  let m := Z.abs n in
  let ds := digits_from (S (Z.to_nat (Z.log2 m))) m EmptyString in
  if n <? 0 then String "-" ds else ds.

(** [x.toString()] for a number [x] that may be NaN. *)
Definition Number_toString (x : option Z) : string :=
  match x with
  | Some v => toString v
  | None => "NaN"
  end.

Fixpoint repeat_char (c : ascii) (n : nat) : string :=
  match n with
  | O => EmptyString
  | S n' => String c (repeat_char c n')
  end.

(** [s.padStart(n, c)] for a one-character filler. *)
Definition padStart (n : nat) (c : ascii) (s : string) : string :=
  repeat_char c (n - String.length s) +:+ s.

(** [s.split(sep)[0]] for a one-character separator: the text before
    its first occurrence, the whole string when there is none. *)
Fixpoint split_head (sep : ascii) (s : string) : string :=
  match s with
  | EmptyString => EmptyString
  | String c s' => if Ascii.eqb c sep then EmptyString else String c (split_head sep s')
  end.

(** *** [Date.prototype.toISOString]

    A time value is a number of milliseconds since 1970-01-01T00:00Z.
    The calendar date of a day number is computed in the proleptic
    Gregorian calendar, years counted from March inside 400-year eras. *)

Definition msPerDay : Z := 86400000.

Definition Day (t : Z) : Z := t / msPerDay.
Definition TimeWithinDay (t : Z) : Z := t mod msPerDay.

(** Year, month (1..12) and day of the month (1..31) of a day number. *)
Definition civil_from_days (z : Z) : Z * Z * Z :=
  let z := z + 719468 in
  let era := z / 146097 in
  let doe := z - era * 146097 in
  let yoe := (doe - doe / 1460 + doe / 36524 - doe / 146096) / 365 in
  let doy := doe - (365 * yoe + yoe / 4 - yoe / 100) in
  let mp := (5 * doy + 2) / 153 in
  let d := doy - (153 * mp + 2) / 5 + 1 in
  let m := if mp <? 10 then mp + 3 else mp - 9 in
  let y := yoe + era * 400 + (if m <=? 2 then 1 else 0) in
  (y, m, d).

Definition pad (n : nat) (v : Z) : string := padStart n "0" (toString v).

(** Four digits for the years 0..9999, otherwise a sign and six digits. *)
Definition year_string (y : Z) : string :=
  if (0 <=? y) && (y <=? 9999) then pad 4 y
  else String (if y <? 0 then "-"%char else "+"%char) (pad 6 (Z.abs y)).

Definition toISOString (t : Z) : string :=
  let '(y, m, d) := civil_from_days (Day t) in
  let w := TimeWithinDay t in
  year_string y +:+ "-" +:+ pad 2 m +:+ "-" +:+ pad 2 d +:+ "T" +:+
  pad 2 (w / 3600000) +:+ ":" +:+ pad 2 (w / 60000 mod 60) +:+ ":" +:+
  pad 2 (w / 1000 mod 60) +:+ "." +:+ pad 3 (w mod 1000) +:+ "Z".

(** *** Errors and completion of asynchronous calls *)

(** An [Error] object. *)
Record Error := { name : string; message : string }.

Global Instance Error_eq_dec : EqDecision Error.
Proof. solve_decision. Defined.

(** [new Error(m)] *)
Definition new_Error (m : string) : Error := {| name := "Error"; message := m |}.

(** A thrown value: an [Error] instance, or something else. *)
Inductive Thrown :=
| Thrown_Error (e : Error)
| Thrown_other.

(** [error instanceof Error ? error : fallback] *)
Definition Error_or (fallback : Error) (t : Thrown) : Error :=
  match t with Thrown_Error e => e | Thrown_other => fallback end.

(** Completion of a call: a value, or a throw (a rejected promise). *)
Inductive Result (A : Type) :=
| Ok (a : A)
| Throw (t : Thrown).
Arguments Ok {A} a.
Arguments Throw {A} t.

End JS.

Import JS.

(** ** Documents *)

(** [IEvent] of event.model.ts.  [ev_id] is the document's [_id], the
    24-digit hexadecimal text of its ObjectId; [ev_createdAt] and
    [ev_updatedAt] are [createdAt] and [updatedAt], as time values. *)
Record IEvent := {
  ev_id : string;
  title : string;
  slug : string;
  description : string;
  overview : string;
  image : string;
  venue : string;
  location : string;
  date : string;
  time : string;
  mode : string;
  audience : string;
  agenda : list string;
  organizer : string;
  tags : list string;
  ev_createdAt : Z;
  ev_updatedAt : Z
}.

(** [IBooking] of booking.model.ts, with [bk_id] for [_id] and
    [eventId] the text of the referenced ObjectId. *)
Record IBooking := {
  bk_id : string;
  eventId : string;
  email : string;
  bk_createdAt : Z;
  bk_updatedAt : Z
}.

(** A mongoose document: the field values together with what mongoose
    tracks about them, [isNew] and the paths modified since the
    document was loaded.  On a new document every path that was given a
    value is modified. *)
Record Document (T : Type) := {
  isNew : bool;
  modifiedPaths : list string;
  fields : T
}.
Arguments isNew {T} _.
Arguments modifiedPaths {T} _.
Arguments fields {T} _.

(** [this.isModified(path)] *)
Definition isModified {T} (this : Document T) (path : string) : bool :=
  bool_decide (path ∈ modifiedPaths this).

(** ** The process and the document store *)

(** Calls that reach the MongoDB driver. *)
Inductive DriverCall :=
| Call_connect (uri : string)
| Call_exists_Event (id : string)
| Call_findOne_Event (by_slug : string)
| Call_write_Event (id : string)
| Call_write_Booking (id : string)
| Call_exists_Booking (id : string).

Record World := {
  (** [process.env.MONGODB_URI] *)
  MONGODB_URI : option string;
  (** [cached.conn] and [cached.promise] of lib/mongodb.ts: set or null *)
  cached_conn : bool;
  cached_promise : bool;
  (** [Some t] when the server cannot be reached: driver calls reject with [t] *)
  outage : option Thrown;
  (** the [events] and [bookings] collections, by [_id] *)
  events : gmap string IEvent;
  bookings : gmap string IBooking;
  (** the clock, for the [timestamps: true] option *)
  now : Z;
  (** driver calls made so far, latest first *)
  calls : list DriverCall
}.

Definition with_conn (conn : bool) (w : World) : World :=
  {| MONGODB_URI := MONGODB_URI w; cached_conn := conn;
     cached_promise := cached_promise w; outage := outage w; events := events w;
     bookings := bookings w; now := now w; calls := calls w |}.

Definition with_promise (promise : bool) (w : World) : World :=
  {| MONGODB_URI := MONGODB_URI w; cached_conn := cached_conn w;
     cached_promise := promise; outage := outage w; events := events w;
     bookings := bookings w; now := now w; calls := calls w |}.

Definition with_events (es : gmap string IEvent) (w : World) : World :=
  {| MONGODB_URI := MONGODB_URI w; cached_conn := cached_conn w;
     cached_promise := cached_promise w; outage := outage w; events := es;
     bookings := bookings w; now := now w; calls := calls w |}.

Definition with_bookings (bs : gmap string IBooking) (w : World) : World :=
  {| MONGODB_URI := MONGODB_URI w; cached_conn := cached_conn w;
     cached_promise := cached_promise w; outage := outage w; events := events w;
     bookings := bs; now := now w; calls := calls w |}.

Definition with_call (c : DriverCall) (w : World) : World :=
  {| MONGODB_URI := MONGODB_URI w; cached_conn := cached_conn w;
     cached_promise := cached_promise w; outage := outage w; events := events w;
     bookings := bookings w; now := now w; calls := c :: calls w |}.

(** Asynchronous code runs against the world and completes with a value
    or a throw. *)
Definition Async (A : Type) : Type := World -> Result A * World.

Definition ret {A} (a : A) : Async A := fun w => (Ok a, w).

Definition throw {A} (t : Thrown) : Async A := fun w => (Throw t, w).

Definition bind {A B} (m : Async A) (k : A -> Async B) : Async B :=
  fun w => match m w with
           | (Ok a, w') => k a w'
           | (Throw t, w') => (Throw t, w')
           end.

(** [try { body } catch (error) { handler }] *)
Definition try_catch {A} (body : Async A) (handler : Thrown -> Async A) : Async A :=
  fun w => match body w with
           | (Ok a, w') => (Ok a, w')
           | (Throw t, w') => handler t w'
           end.

Definition get_world : Async World := fun w => (Ok w, w).

Definition update_world (f : World -> World) : Async unit := fun w => (Ok tt, f w).

Notation "x <- m ;; k" := (bind m (fun x => k))
  (at level 100, m at next level, right associativity).
Notation "m ;;; k" := (bind m (fun _ => k))
  (at level 100, right associativity).

(** A call to the driver: recorded, then rejected during an outage. *)
Definition driver {A} (c : DriverCall) (answer : World -> A) : Async A :=
  update_world (with_call c) ;;;
  w <- get_world ;;
  match outage w with
  | Some t => throw t
  | None => ret (answer w)
  end.

(** [l.join(sep)] *)
Fixpoint join (sep : string) (l : list string) : string :=
  match l with
  | [] => ""
  | [x] => x
  | x :: l' => x +:+ sep +:+ join sep l'
  end.

(** Failures of schema validators, as mongoose reports them: one
    [ValidationError] naming the model and, for every failing path in
    schema order, the message declared for the first validator that
    fails on it. *)
Definition ValidationError (model : string) (failures : list (string * string)) : Error :=
  {| name := "ValidationError";
     message := model +:+ " validation failed: " +:+
                join ", " (map (fun f => fst f +:+ ": " +:+ snd f) failures) |}.

(** What mongoose reports when the document of an update is not in the
    collection (the message is shortened here). *)
Definition DocumentNotFound (model : string) : Error :=
  {| name := "DocumentNotFoundError";
     message := "No document found for query on model " +:+ model |}.

(** The server's answer to a write that breaks a unique index. *)
Definition DuplicateKey (index : string) : Error :=
  {| name := "MongoServerError";
     message := "E11000 duplicate key error index: " +:+ index |}.

(** [required: [true, msg]] on a String path: the value must be a
    non-empty string. *)
Definition required (path msg value : string) : list (string * string) :=
  if String.eqb value "" then [(path, msg)] else [].

(** ** event.model.ts *)

Module EventSchema.

Definition mode_values : list string := ["online"; "offline"; "hybrid"].

(** The validators declared in the schema.  The [agenda] and [tags]
    validators are [(array) => array.length > 0]. *)
Definition failures (e : IEvent) : list (string * string) :=
  required "title" "Event title is required" (title e) ++
  required "description" "Event description is required" (description e) ++
  required "overview" "Event overview is required" (overview e) ++
  required "image" "Event image is required" (image e) ++
  required "venue" "Event venue is required" (venue e) ++
  required "location" "Event location is required" (location e) ++
  required "date" "Event date is required" (date e) ++
  required "time" "Event time is required" (time e) ++
  (if String.eqb (mode e) "" then [("mode", "Event mode is required")]
   else if bool_decide (mode e ∈ mode_values) then []
   else [("mode", "Mode must be online, offline, or hybrid")]) ++
  required "audience" "Event audience is required" (audience e) ++
  (if (0 <? Z.of_nat (length (agenda e))) then []
   else [("agenda", "Agenda must contain at least one item")]) ++
  required "organizer" "Event organizer is required" (organizer e) ++
  (if (0 <? Z.of_nat (length (tags e))) then []
   else [("tags", "Tags must contain at least one item")]).

Definition validate (e : IEvent) : option Error :=
  match failures e with
  | [] => None
  | fs => Some (ValidationError "Event" fs)
  end.

(** Assignments made by the hook.  [slug] is declared with
    [lowercase: true, trim: true]: both setters run on assignment. *)
Definition set_slug (v : string) (e : IEvent) : IEvent :=
  {| ev_id := ev_id e; title := title e; slug := trim (toLowerCase v);
     description := description e; overview := overview e; image := image e;
     venue := venue e; location := location e; date := date e; time := time e;
     mode := mode e; audience := audience e; agenda := agenda e;
     organizer := organizer e; tags := tags e;
     ev_createdAt := ev_createdAt e; ev_updatedAt := ev_updatedAt e |}.

Definition set_date (v : string) (e : IEvent) : IEvent :=
  {| ev_id := ev_id e; title := title e; slug := slug e;
     description := description e; overview := overview e; image := image e;
     venue := venue e; location := location e; date := v; time := time e;
     mode := mode e; audience := audience e; agenda := agenda e;
     organizer := organizer e; tags := tags e;
     ev_createdAt := ev_createdAt e; ev_updatedAt := ev_updatedAt e |}.

Definition set_time (v : string) (e : IEvent) : IEvent :=
  {| ev_id := ev_id e; title := title e; slug := slug e;
     description := description e; overview := overview e; image := image e;
     venue := venue e; location := location e; date := date e; time := v;
     mode := mode e; audience := audience e; agenda := agenda e;
     organizer := organizer e; tags := tags e;
     ev_createdAt := ev_createdAt e; ev_updatedAt := ev_updatedAt e |}.

Definition set_timestamps (created updated : Z) (e : IEvent) : IEvent :=
  {| ev_id := ev_id e; title := title e; slug := slug e;
     description := description e; overview := overview e; image := image e;
     venue := venue e; location := location e; date := date e; time := time e;
     mode := mode e; audience := audience e; agenda := agenda e;
     organizer := organizer e; tags := tags e;
     ev_createdAt := created; ev_updatedAt := updated |}.

(** [title.toLowerCase().replace(/[^\w\s-]/g, '').replace(/\s+/g, '-')
      .replace(/-+/g, '-').trim()] *)
Definition slugify (title : string) : string :=
  trim
    (replace_runs is_hyphen "-"
       (replace_runs is_space "-"
          (remove_not (fun c => is_word c || is_space c || is_hyphen c)
             (toLowerCase title)))).

(** [/^\d{4}-\d{2}-\d{2}$/.test(s)] *)
Definition dateRegex_test (s : string) : bool :=
  match String.list_ascii_of_string s with
  | [y1; y2; y3; y4; h1; m1; m2; h2; d1; d2] =>
      is_digit y1 && is_digit y2 && is_digit y3 && is_digit y4 &&
      is_hyphen h1 && is_digit m1 && is_digit m2 &&
      is_hyphen h2 && is_digit d1 && is_digit d2
  | _ => false
  end.

Definition is_colon (c : ascii) : bool := code c =? 58.

(** [/^([01]\d|2[0-3]):([0-5]\d)$/.test(s)] *)
Definition timeRegex_test (s : string) : bool :=
  match String.list_ascii_of_string s with
  | [h1; h2; c; m1; m2] =>
      ((between 48 49 h1 && is_digit h2) || ((code h1 =? 50) && between 48 51 h2)) &&
      is_colon c &&
      (between 48 53 m1 && is_digit m2)
  | _ => false
  end.

(** [s.match(/^(\d{1,2}):(\d{2})$/)]: the two captured groups. *)
Definition timeParts_match (s : string) : option (string * string) :=
  match String.list_ascii_of_string s with
  | [h1; c; m1; m2] =>
      if is_digit h1 && is_colon c && is_digit m1 && is_digit m2
      then Some (String.string_of_list_ascii [h1], String.string_of_list_ascii [m1; m2])
      else None
  | [h1; h2; c; m1; m2] =>
      if is_digit h1 && is_digit h2 && is_colon c && is_digit m1 && is_digit m2
      then Some (String.string_of_list_ascii [h1; h2], String.string_of_list_ascii [m1; m2])
      else None
  | _ => None
  end.

(** The three [Error] objects the hook creates. *)
Definition InvalidDate : Error :=
  new_Error "Invalid date format. Expected ISO format (YYYY-MM-DD)".
Definition InvalidTime_format : Error :=
  new_Error "Invalid time format. Expected HH:MM (24-hour format)".
Definition InvalidTime_range : Error :=
  new_Error "Invalid time. Hours must be 0-23 and minutes 0-59".

(** Control flow inside the hook: fall through to the next statement,
    or [return v] with the document as it is at that point. *)
Inductive Flow :=
| Continue (e : IEvent)
| Return (e : IEvent) (v : Error).

Section Host.

(** [new Date(s).getTime()] for a string [s]; [None] is NaN.  Outside
    the ISO format the accepted strings depend on the engine. *)
Variable Date_parse : string -> option Z.

Definition slug_step (this : Document IEvent) (e : IEvent) : IEvent :=
  if isModified this "title" then set_slug (slugify (title e)) e else e.

Definition date_step (this : Document IEvent) (e : IEvent) : Flow :=
  if isModified this "date" then
    if negb (dateRegex_test (date e)) then
      match Date_parse (date e) with
      | None => Return e InvalidDate
      | Some parsedDate =>
          Continue (set_date (split_head "T" (toISOString parsedDate)) e)
      end
    else Continue e
  else Continue e.

Definition time_step (this : Document IEvent) (e : IEvent) : Flow :=
  if isModified this "time" then
    if negb (timeRegex_test (time e)) then
      match timeParts_match (time e) with
      | None => Return e InvalidTime_format
      | Some (p1, p2) =>
          let hours := parseInt10 p1 in
          let minutes := parseInt10 p2 in
          if gt hours 23 || gt minutes 59 then Return e InvalidTime_range
          else Continue (set_time (padStart 2 "0" (Number_toString hours) +:+ ":" +:+
                                   padStart 2 "0" (Number_toString minutes)) e)
      end
    else Continue e
  else Continue e.

(** [EventSchema.pre('save', async function () { ... })]: the
    document after the hook ran, and the value the function
    returned ([None] for [undefined]).  The function never throws. *)
Definition preSave (this : Document IEvent) : IEvent * option Error :=
  match date_step this (slug_step this (fields this)) with
  | Return e v => (e, Some v)
  | Continue e =>
      match time_step this e with
      | Return e' v => (e', Some v)
      | Continue e' => (e', None)
      end
  end.

(** The unique index on [slug]: a write of [e] conflicts with another
    stored document that has the same slug. *)
Definition slug_taken (es : gmap string IEvent) (e : IEvent) : bool :=
  bool_decide (map_Exists (fun id e' => id ≠ ev_id e ∧ slug e' = slug e) es).

(** The write that ends a save: an insert for a new document, an
    update by [_id] otherwise, under the [_id] and [slug] indexes. *)
Definition write (isNew : bool) (e : IEvent) : Async IEvent :=
  w <- driver (Call_write_Event (ev_id e)) id ;;
  let stored := bool_decide (is_Some (events w !! ev_id e)) in
  if isNew && stored
  then throw (Thrown_Error (DuplicateKey "_id_"))
  else if negb isNew && negb stored
  then throw (Thrown_Error (DocumentNotFound "Event"))
  else if slug_taken (events w) e
  then throw (Thrown_Error (DuplicateKey "slug_1"))
  else update_world (with_events (<[ev_id e := e]> (events w))) ;;; ret e.

(** [timestamps: true] *)
Definition stamp (isNew : bool) (now : Z) (e : IEvent) : IEvent :=
  set_timestamps (if isNew then now else ev_createdAt e) now e.

(** [document.save()]: mongoose runs the schema validators, then the
    pre-save hook, whose returned value it does not look at, then
    the write. *)
Definition save (this : Document IEvent) : Async IEvent :=
  match validate (fields this) with
  | Some err => throw (Thrown_Error err)
  | None =>
      let '(e, _) := preSave this in
      w <- get_world ;;
      write (isNew this) (stamp (isNew this) (now w) e)
  end.

(** The document a save hands to the write. *)
Definition to_write (this : Document IEvent) (w : World) : IEvent :=
  stamp (isNew this) (now w) (fst (preSave this)).

(** What the hook's checks reject.  The date is rejected when it is
    neither of the canonical shape nor parsed by the engine; the
    time when it is neither canonical nor [H:MM]/[HH:MM] with an
    hour up to 23 and a minute up to 59. *)
Definition date_rejected (this : Document IEvent) : Prop :=
  isModified this "date" = true /\
  dateRegex_test (date (fields this)) = false /\
  Date_parse (date (fields this)) = None.

Definition time_rejected (this : Document IEvent) : Prop :=
  isModified this "time" = true /\
  timeRegex_test (time (fields this)) = false /\
  (timeParts_match (time (fields this)) = None \/
   exists p1 p2,
     timeParts_match (time (fields this)) = Some (p1, p2) /\
     (gt (parseInt10 p1) 23 = true \/ gt (parseInt10 p2) 59 = true)).

(** The conditions under which the write of [e] is accepted: the
    server answers, the [_id] is free for a new document and stored for
    an update, and no other stored event has the slug. *)
Definition accepted (isNew : bool) (e : IEvent) (w : World) : Prop :=
  outage w = None /\
  bool_decide (is_Some (events w !! ev_id e)) = negb isNew /\
  slug_taken (events w) e = false.

End Host.

(** Slugs are pairwise distinct in a collection. *)
Definition slug_unique (es : gmap string IEvent) : Prop :=
  forall i j ei ej,
    es !! i = Some ei -> es !! j = Some ej -> slug ei = slug ej -> i = j.

End EventSchema.

(** [Event.exists({ _id: id })]: the matching [{ _id }], or null. *)
Definition Event_exists (id : string) : Async (option string) :=
  driver (Call_exists_Event id) (fun w => ev_id <$> events w !! id).

(** [Event.findOne({ slug: s }).lean()]: a stored event with that slug,
    or null. *)
Definition Event_findOne (s : string) : Async (option IEvent) :=
  driver (Call_findOne_Event s)
    (fun w => snd <$> List.find (fun kv => String.eqb (slug (snd kv)) s)
                        (map_to_list (events w))).

(** ** booking.model.ts *)

Module BookingSchema.

Definition is_at (c : ascii) : bool := code c =? 64.
Definition is_dot (c : ascii) : bool := code c =? 46.

(** [[^\s@]] *)
Definition is_email_char (c : ascii) : bool := negb (is_space c) && negb (is_at c).

Fixpoint span_email_chars (l : list ascii) : list ascii * list ascii :=
  match l with
  | c :: l' =>
      if is_email_char c
      then let '(a, b) := span_email_chars l' in (c :: a, b)
      else ([], l)
  | [] => ([], [])
  end.

(** [/^[^\s@]+@[^\s@]+\.[^\s@]+$/.test(s)]: a non-empty local part, an
    [@], and a rest made of the same characters with a dot that is
    neither its first nor its last character. *)
Definition emailRegex_test (s : string) : bool :=
  match span_email_chars (String.list_ascii_of_string s) with
  | (_ :: _, a :: rest) =>
      is_at a && forallb is_email_char rest &&
      existsb is_dot (removelast (tail rest))
  | _ => false
  end.

(** [[0-9a-fA-F]] *)
Definition is_hex (c : ascii) : bool :=
  is_digit c || between 97 102 c || between 65 70 c.

(** The texts mongoose casts to an ObjectId: 24 hexadecimal digits. *)
Definition isObjectIdHex (s : string) : bool :=
  (length (String.list_ascii_of_string s) =? 24)%nat &&
  forallb is_hex (String.list_ascii_of_string s).

(** A text between double quotes. *)
Definition quoted (s : string) : string :=
  String (ascii_of_nat 34) s +:+ String (ascii_of_nat 34) EmptyString.

(** What mongoose reports for a text it cannot cast to the type of the
    path; [reason] is the name of the error of the cast. *)
Definition CastError (type value path reason : string) : string :=
  "Cast to " +:+ type +:+ " failed for value " +:+ quoted value +:+
  " (type string) at path " +:+ quoted path +:+
  " because of " +:+ quoted reason.

(** The [lowercase: true, trim: true] setters of [email]. *)
Definition email_setters (v : string) : string := trim (toLowerCase v).

(** The document as mongoose holds it once the values given by the
    caller are cast and the setters have run: an ObjectId prints as
    lowercase hexadecimal digits, [email] is lowercased and trimmed. *)
Definition cast (b : IBooking) : IBooking :=
  {| bk_id := bk_id b; eventId := toLowerCase (eventId b);
     email := email_setters (email b);
     bk_createdAt := bk_createdAt b; bk_updatedAt := bk_updatedAt b |}.

Definition cast_document (this : Document IBooking) : Document IBooking :=
  {| isNew := isNew this; modifiedPaths := modifiedPaths this;
     fields := cast (fields this) |}.

(** The failures of the values given by the caller.  [eventId] must be
    there (the empty text stands for an absent value) and cast to an
    ObjectId; the validator of [email] sees the value the setters
    leave. *)
Definition failures (b : IBooking) : list (string * string) :=
  (if String.eqb (eventId b) "" then [("eventId", "Event ID is required")]
   else if isObjectIdHex (eventId b) then []
   else [("eventId", CastError "ObjectId" (eventId b) "eventId" "BSONError")]) ++
  (if String.eqb (email_setters (email b)) "" then [("email", "Email is required")]
   else if emailRegex_test (email_setters (email b)) then []
   else [("email", "Please provide a valid email address")]).

Definition validate (b : IBooking) : option Error :=
  match failures b with
  | [] => None
  | fs => Some (ValidationError "Booking" fs)
  end.

(** The [Error] the hook creates for an event that is not there. *)
Definition DanglingReference (id : string) : Error :=
  new_Error ("Event with ID " +:+ id +:+ " does not exist").

(** [BookingSchema.pre('save', async function (next) { ... })]: the
    argument of the hook's call of [next], [None] for [next()]. *)
Definition preSave (this : Document IBooking) : Async (option Error) :=
  if isModified this "eventId" then
    try_catch
      (eventExists <- Event_exists (eventId (fields this)) ;;
       if negb (bool_decide (is_Some eventExists))
       then ret (Some (DanglingReference (eventId (fields this))))
       else ret None)
      (fun error => ret (Some (Error_or (new_Error "Error validating event") error)))
  else ret None.

Definition set_timestamps (created updated : Z) (b : IBooking) : IBooking :=
  {| bk_id := bk_id b; eventId := eventId b; email := email b;
     bk_createdAt := created; bk_updatedAt := updated |}.

Definition stamp (isNew : bool) (now : Z) (b : IBooking) : IBooking :=
  set_timestamps (if isNew then now else bk_createdAt b) now b.

Definition write (isNew : bool) (b : IBooking) : Async IBooking :=
  w <- driver (Call_write_Booking (bk_id b)) id ;;
  let stored := bool_decide (is_Some (bookings w !! bk_id b)) in
  if isNew && stored
  then throw (Thrown_Error (DuplicateKey "_id_"))
  else if negb isNew && negb stored
  then throw (Thrown_Error (DocumentNotFound "Booking"))
  else update_world (with_bookings (<[bk_id b := b]> (bookings w))) ;;; ret b.

(** [this.$isModified()]: the document is new or some path of it is
    modified. *)
Definition has_changes (this : Document IBooking) : bool :=
  isNew this || negb (bool_decide (modifiedPaths this = [])).

(** What a save does for a stored document with nothing modified: no
    update is sent, mongoose only asks whether the document is still
    there. *)
Definition probe (b : IBooking) : Async IBooking :=
  w <- driver (Call_exists_Booking (bk_id b)) id ;;
  if bool_decide (is_Some (bookings w !! bk_id b)) then ret b
  else throw (Thrown_Error (DocumentNotFound "Booking")).

(** [document.save()]: the schema validators on the cast values, then
    the pre-save hook, which stops the save when it calls [next] with
    an error, then the write of the stamped document, or no write at
    all when the document is stored and nothing of it is modified. *)
Definition save (this : Document IBooking) : Async IBooking :=
  match validate (fields this) with
  | Some err => throw (Thrown_Error err)
  | None =>
      arg <- preSave (cast_document this) ;;
      match arg with
      | Some err => throw (Thrown_Error err)
      | None =>
          if has_changes this then
            w <- get_world ;;
            write (isNew this) (stamp (isNew this) (now w) (cast (fields this)))
          else probe (cast (fields this))
      end
  end.

End BookingSchema.

(** ** lib/mongodb.ts *)

(** [await cached.promise]: the connection attempt settles. *)
Definition await_promise : Async unit :=
  w <- get_world ;;
  match outage w with
  | Some t => throw t
  | None => ret tt
  end.

Definition connectDB : Async unit :=
  w <- get_world ;;
  if cached_conn w then ret tt
  else
    (if negb (cached_promise w) then
       match MONGODB_URI w with
       | None | Some EmptyString =>
           throw (Thrown_Error (new_Error
             "Please define the MONGODB_URI environment variable inside .env.local"))
       | Some uri =>
           update_world (with_call (Call_connect uri)) ;;;
           update_world (with_promise true)
       end
     else ret tt) ;;;
    try_catch
      (await_promise ;;; update_world (with_conn true))
      (fun error => update_world (with_promise false) ;;; throw error).

(** ** app/api/events/[slug]/route.ts *)

Module Route.

(** [NextResponse.json({ message, event, error }, { status })] *)
Record ApiResponse := {
  status : Z;
  api_message : string;
  api_event : option IEvent;
  api_error : option string
}.

(** [/^[a-z0-9]+(?:-[a-z0-9]+)*$/] read from left to right;
    [after_alnum] tells that the previous character was of [[a-z0-9]],
    which is where a hyphen may follow and where the input may end. *)
Fixpoint slugRegex_from (after_alnum : bool) (s : string) : bool :=
  match s with
  | EmptyString => after_alnum
  | String c s' =>
      if is_lower_alnum c then slugRegex_from true s'
      else if is_hyphen c then after_alnum && slugRegex_from false s'
      else false
  end.

Definition isValidSlug (slug : string) : bool := slugRegex_from false slug.

Definition MissingParameter : ApiResponse :=
  {| status := 400; api_message := "Validation error"; api_event := None;
     api_error := Some "Slug parameter is required" |}.

Definition InvalidFormat : ApiResponse :=
  {| status := 400; api_message := "Validation error"; api_event := None;
     api_error :=
       Some "Invalid slug format. Slug must be lowercase alphanumeric with hyphens only" |}.

Definition NotFound (normalizedSlug : string) : ApiResponse :=
  {| status := 404; api_message := "Not found"; api_event := None;
     api_error := Some ("Event with slug '" +:+ normalizedSlug +:+ "' does not exist") |}.

Definition Fetched (event : IEvent) : ApiResponse :=
  {| status := 200; api_message := "Event fetched successfully";
     api_event := Some event; api_error := None |}.

Definition InternalError (error : Thrown) : ApiResponse :=
  {| status := 500; api_message := "Internal server error"; api_event := None;
     api_error := Some (match error with
                        | Thrown_Error e => message e
                        | Thrown_other => "An unexpected error occurred"
                        end) |}.

(** [GET(request, context)] with [slug] the value of
    [(await context.params).slug]. *)
Definition GET (slug : string) : Async ApiResponse :=
  try_catch
    (if String.eqb slug "" || String.eqb (trim slug) "" then ret MissingParameter
     else
       let normalizedSlug := trim (toLowerCase slug) in
       if negb (isValidSlug normalizedSlug) then ret InvalidFormat
       else
         connectDB ;;;
         event <- Event_findOne normalizedSlug ;;
         match event with
         | None => ret (NotFound normalizedSlug)
         | Some e => ret (Fetched e)
         end)
    (fun error => ret (InternalError error)).

End Route.

(** ** Shapes of strings *)

Fixpoint all_chars (p : ascii -> bool) (s : string) : bool :=
  match s with
  | EmptyString => true
  | String c s' => p c && all_chars p s'
  end.

(** [[a-z0-9_-]] *)
Definition is_slug_char (c : ascii) : bool :=
  is_lower c || is_digit c || (code c =? 95) || is_hyphen c.

(** No two hyphens in a row. *)
Fixpoint single_hyphens (s : string) : bool :=
  match s with
  | EmptyString => true
  | String a s' =>
      match s' with
      | EmptyString => true
      | String b _ => negb (is_hyphen a && is_hyphen b) && single_hyphens s'
      end
  end.

Definition starts_with_hyphen (s : string) : bool :=
  match s with
  | EmptyString => false
  | String c _ => is_hyphen c
  end.

Definition is_empty (s : string) : bool :=
  match s with EmptyString => true | String _ _ => false end.

Fixpoint ends_with_hyphen (s : string) : bool :=
  match s with
  | EmptyString => false
  | String c s' =>
      match s' with
      | EmptyString => is_hyphen c
      | String _ _ => ends_with_hyphen s'
      end
  end.

(** The slug format in words: lowercase alphanumerics and single
    hyphens only, no hyphen at either end. *)
Definition slug_format (s : string) : bool :=
  all_chars (fun c => is_lower_alnum c || is_hyphen c) s &&
  single_hyphens s &&
  negb (starts_with_hyphen s) && negb (ends_with_hyphen s).

(** ** What the time check of the hook does with a string

    [time_outcome] reads the branch the hook takes off the value of
    [this.time]; [time_step_outcome] below shows that it is the hook's. *)

Inductive TimeOutcome :=
| Kept
| Padded (s : string)
| Rejected (v : Error).

Definition time_outcome (s : string) : TimeOutcome :=
  if EventSchema.timeRegex_test s then Kept
  else
    match EventSchema.timeParts_match s with
    | None => Rejected EventSchema.InvalidTime_format
    | Some (p1, p2) =>
        let hours := parseInt10 p1 in
        let minutes := parseInt10 p2 in
        if gt hours 23 || gt minutes 59 then Rejected EventSchema.InvalidTime_range
        else Padded (padStart 2 "0" (Number_toString hours) +:+ ":" +:+
                     padStart 2 "0" (Number_toString minutes))
    end.

(** Inputs of the forms H:MM and HH:MM, by their digits. *)
Definition decimal_digits : list ascii :=
  ["0"; "1"; "2"; "3"; "4"; "5"; "6"; "7"; "8"; "9"]%char.

Definition decimal_value (ds : list ascii) : Z :=
  fold_left (fun acc d => 10 * acc + digit_value d) ds 0.

Definition time_text (hs : list ascii) (m1 m2 : ascii) : string :=
  String.string_of_list_ascii (hs ++ [":"%char; m1; m2]).

(** The zero-padded HH:MM text of an hour and a minute. *)
Definition zero_padded (hours minutes : Z) : string :=
  padStart 2 "0" (toString hours) +:+ ":" +:+ padStart 2 "0" (toString minutes).

(** In range: the value is kept or rewritten, and is the zero-padded
    text either way.  Out of range: the range error is created. *)
Definition time_check_ok (hs : list ascii) (m1 m2 : ascii) : bool :=
  let hours := decimal_value hs in
  let minutes := decimal_value [m1; m2] in
  match time_outcome (time_text hs m1 m2) with
  | Kept =>
      (hours <=? 23) && (minutes <=? 59) &&
      String.eqb (time_text hs m1 m2) (zero_padded hours minutes)
  | Padded s =>
      (hours <=? 23) && (minutes <=? 59) && String.eqb s (zero_padded hours minutes)
  | Rejected v =>
      ((23 <? hours) || (59 <? minutes)) &&
      bool_decide (v = EventSchema.InvalidTime_range)
  end.

(** ** Checks by enumeration for the date text *)

(** Exactly [n] decimal digits. *)
Definition is_digits (n : nat) (s : string) : bool :=
  (String.length s =? n)%nat && all_chars is_digit s.

(** The [n] integers from [z] on; [upto n] is 0, 1, ..., n - 1. *)
Fixpoint count_from (z : Z) (n : nat) : list Z :=
  match n with
  | O => []
  | S n' => z :: count_from (z + 1) n'
  end.

Definition upto (n : Z) : list Z := count_from 0 (Z.to_nat n).

(** Month and day of the month as [civil_from_days] computes them from
    the day of the 400-year era. *)
Definition month_day_of_era_day (doe : Z) : Z * Z :=
  let yoe := (doe - doe / 1460 + doe / 36524 - doe / 146096) / 365 in
  let doy := doe - (365 * yoe + yoe / 4 - yoe / 100) in
  let mp := (5 * doy + 2) / 153 in
  let d := doy - (153 * mp + 2) / 5 + 1 in
  let m := if mp <? 10 then mp + 3 else mp - 9 in
  (m, d).

Definition month_day_in_range (doe : Z) : bool :=
  let '(m, d) := month_day_of_era_day doe in
  (1 <=? m) && (m <=? 12) && (1 <=? d) && (d <=? 31).

(** ** Conditions on the world *)

(** [MONGODB_URI] is defined and not the empty string. *)
Definition uri_set (w : World) : bool :=
  match MONGODB_URI w with
  | None | Some EmptyString => false
  | Some _ => true
  end.

(** A connection is cached, or an attempt is cached, or one can be made. *)
Definition connectable (w : World) : bool :=
  cached_conn w || cached_promise w || uri_set w.

(** The server goes down, or comes back. *)
Definition with_outage (o : option Thrown) (w : World) : World :=
  {| MONGODB_URI := MONGODB_URI w; cached_conn := cached_conn w;
     cached_promise := cached_promise w; outage := o; events := events w;
     bookings := bookings w; now := now w; calls := calls w |}.

Definition config_error : Error :=
  new_Error "Please define the MONGODB_URI environment variable inside .env.local".

(** What [findOne({ slug: s })] answers over a collection. *)
Definition find_slug (es : gmap string IEvent) (s : string) : option IEvent :=
  snd <$> List.find (fun kv => String.eqb (slug (snd kv)) s) (map_to_list es).

(** The route's normalisation of the raw slug. *)
Definition normalize (slug : string) : string := trim (toLowerCase slug).

(** ** Checks by enumeration for the padded time *)

(** When the hook rewrites an H:MM or HH:MM input, the text it writes is
    of the canonical pattern. *)
Definition padded_is_canonical (hs : list ascii) (m1 m2 : ascii) : bool :=
  match time_outcome (time_text hs m1 m2) with
  | Padded s => EventSchema.timeRegex_test s
  | _ => true
  end.

(** [getUTCFullYear()] of a time value. *)
Definition UTCFullYear (t : Z) : Z := fst (fst (civil_from_days (Day t))).

(** The fields the hook has no assignment for. *)
Definition same_other_fields (e e' : IEvent) : Prop :=
  ev_id e' = ev_id e /\ title e' = title e /\
  description e' = description e /\ overview e' = overview e /\
  image e' = image e /\ venue e' = venue e /\ location e' = location e /\
  mode e' = mode e /\ audience e' = audience e /\ agenda e' = agenda e /\
  organizer e' = organizer e /\ tags e' = tags e /\
  ev_createdAt e' = ev_createdAt e /\ ev_updatedAt e' = ev_updatedAt e.

(** The write of the booking [b] is accepted: the server answers and
    the [_id] is free for a new document, stored for an update. *)
Definition booking_accepted (isNew : bool) (b : IBooking) (w : World) : Prop :=
  outage w = None /\
  bool_decide (is_Some (bookings w !! bk_id b)) = negb isNew.

(** The document a booking save answers: cast and stamped, or only cast
    when the document is stored and nothing of it is modified. *)
Definition booking_to_write (this : Document IBooking) (w : World) : IBooking :=
  if BookingSchema.has_changes this
  then BookingSchema.stamp (isNew this) (now w) (BookingSchema.cast (fields this))
  else BookingSchema.cast (fields this).

(** ** Sample data *)

Definition sample_world : World :=
  {| MONGODB_URI := Some "mongodb://localhost:27017/dev-events";
     cached_conn := true; cached_promise := true; outage := None;
     events := ∅; bookings := ∅; now := 1762000000000; calls := [] |}.

Definition sample_booking : Document IBooking :=
  {| isNew := true; modifiedPaths := ["eventId"; "email"];
     fields := {| bk_id := "6905f3a2c1d4e5b6a7f80912";
                  eventId := "6905f39ac1d4e5b6a7f80911";
                  email := "ada@example.com";
                  bk_createdAt := 0; bk_updatedAt := 0 |} |}.



Definition sample_event (id title date time : string) : Document IEvent :=
  {| isNew := true;
     modifiedPaths := ["title"; "description"; "overview"; "image"; "venue";
                       "location"; "date"; "time"; "mode"; "audience"; "agenda";
                       "organizer"; "tags"];
     fields := {| ev_id := id; title := title; slug := "";
                  description := "An evening of talks"; overview := "Talks and pizza";
                  image := "/images/meetup.png"; venue := "Hall 1";
                  location := "Lisbon"; date := date; time := time;
                  mode := "hybrid"; audience := "Developers";
                  agenda := ["Doors open"; "Talks"]; organizer := "Dev Events";
                  tags := ["web"]; ev_createdAt := 0; ev_updatedAt := 0 |} |}.

(** An engine whose [Date] parser accepts nothing outside the canonical
    shape, which the hook never hands to it. *)
Definition parses_nothing (s : string) : option Z := None.

Definition first_meetup : Document IEvent :=
  sample_event "6905f39ac1d4e5b6a7f80911" "Tech Meetup" "2025-11-20" "18:30".

Definition second_meetup : Document IEvent :=
  sample_event "6905f3b0c1d4e5b6a7f80913" "Tech Meetup!" "2025-12-04" "19:00".

(** The sample world after the first meetup was saved. *)
Definition world_with_meetup : World :=
  snd (EventSchema.save parses_nothing first_meetup sample_world).

(** A process that has not connected yet, and one whose server is down. *)
Definition fresh_world : World :=
  {| MONGODB_URI := Some "mongodb://localhost:27017/dev-events";
     cached_conn := false; cached_promise := false; outage := None;
     events := ∅; bookings := ∅; now := 1762000000000; calls := [] |}.

Definition down_world : World :=
  with_outage (Some (Thrown_Error (new_Error "connect ECONNREFUSED 127.0.0.1:27017")))
    fresh_world.

Definition unconfigured_world : World :=
  {| MONGODB_URI := None;
     cached_conn := false; cached_promise := false; outage := None;
     events := ∅; bookings := ∅; now := 1762000000000; calls := [] |}.

(** An engine that parses one date text outside the canonical shape. *)
Definition parses_one (s : string) : option Z :=
  if String.eqb s "15 January 2025 10:00 UTC" then Some 1736935200000 else None.

(** A booking for the first meetup, and the same booking loaded again
    with only its email changed. *)
Definition meetup_booking : Document IBooking :=
  {| isNew := true; modifiedPaths := ["eventId"; "email"];
     fields := {| bk_id := "6905f3a2c1d4e5b6a7f80912";
                  eventId := "6905f39ac1d4e5b6a7f80911";
                  email := "ada@example.com";
                  bk_createdAt := 0; bk_updatedAt := 0 |} |}.

Definition world_with_booking : World :=
  snd (BookingSchema.save meetup_booking world_with_meetup).

Definition email_change : Document IBooking :=
  {| isNew := false; modifiedPaths := ["email"];
     fields := {| bk_id := "6905f3a2c1d4e5b6a7f80912";
                  eventId := "6905f39ac1d4e5b6a7f80911";
                  email := "ada.l@example.com";
                  bk_createdAt := 1762000000000; bk_updatedAt := 1762000000000 |} |}.

(** The store with the booking, after the event it refers to was removed. *)
Definition world_without_event : World := with_events ∅ world_with_booking.

(** * Properties *)

(** ** Running asynchronous code *)

Lemma driver_up {A} (c : DriverCall) (answer : World -> A) (w : World) :
  outage w = None ->
  driver c answer w = (Ok (answer (with_call c w)), with_call c w).
Proof.
  intros Hup. unfold driver, bind, update_world, get_world, ret. simpl.
  now rewrite Hup.
Qed.

Lemma driver_down {A} (c : DriverCall) (answer : World -> A) (w : World) t :
  outage w = Some t ->
  driver c answer w = (Throw t, with_call c w).
Proof.
  intros Hdown. unfold driver, bind, update_world, get_world, throw. simpl.
  now rewrite Hdown.
Qed.

(** A driver call leaves both collections as they are. *)
Lemma driver_collections {A} (c : DriverCall) (answer : World -> A) (w : World) :
  events (snd (driver c answer w)) = events w /\
  bookings (snd (driver c answer w)) = bookings w.
Proof.
  destruct (outage w) as [t|] eqn:Ho.
  - now rewrite (driver_down c answer w t Ho).
  - now rewrite (driver_up c answer w Ho).
Qed.

(** ** Booking: the referential check *)

Section BookingFacts.

Import BookingSchema.

Variable this : Document IBooking.
Variable w : World.

Let id := eventId (fields this).

(** The hook only reads the store. *)
Lemma Booking_preSave_reads :
  events (snd (preSave this w)) = events w /\
  bookings (snd (preSave this w)) = bookings w.
Proof.
  unfold preSave. destruct (isModified this "eventId"); [|easy].
  unfold try_catch, bind, Event_exists.
  destruct (driver_collections (Call_exists_Event (eventId (fields this)))
              (fun w0 => ev_id <$> events w0 !! eventId (fields this)) w) as [He Hb].
  destruct (driver _ _ w) as [[r|t] w'] eqn:Hd; simpl in *.
  - destruct (negb _); simpl; auto.
  - auto.
Qed.


End BookingFacts.




(** ** Event: the pre-save hook and the save *)

Section EventFacts.

Import EventSchema.

Variable Date_parse : string -> option Z.
Variable this : Document IEvent.

Lemma date_step_cases e :
  (exists e', date_step Date_parse this e = Continue e' /\
              ev_id e' = ev_id e /\ slug e' = slug e /\ time e' = time e) \/
  (date_step Date_parse this e = Return e InvalidDate /\
   isModified this "date" = true /\ dateRegex_test (date e) = false /\
   Date_parse (date e) = None).
Proof.
  unfold date_step.
  destruct (isModified this "date"); [|left; eauto].
  destruct (dateRegex_test (date e)); simpl; [left; eauto|].
  destruct (Date_parse (date e)); [left; eauto|right; auto].
Qed.

Lemma time_step_cases e :
  (exists e', time_step this e = Continue e' /\
              ev_id e' = ev_id e /\ slug e' = slug e /\ date e' = date e) \/
  (exists v, time_step this e = Return e v /\
             (v = InvalidTime_format \/ v = InvalidTime_range)).
Proof.
  unfold time_step.
  destruct (isModified this "time"); [|left; eauto].
  destruct (timeRegex_test (time e)); simpl; [left; eauto|].
  destruct (timeParts_match (time e)) as [[p1 p2]|]; [|right; eauto].
  cbv zeta. destruct (_ || _); [right; eauto|left; eauto].
Qed.

(** The hook changes [slug], [date] and [time] only. *)
Lemma preSave_ev_id : ev_id (fst (preSave Date_parse this)) = ev_id (fields this).
Proof.
  unfold preSave.
  assert (Hs : ev_id (slug_step this (fields this)) = ev_id (fields this)).
  { unfold slug_step. now destruct (isModified this "title"). }
  destruct (date_step_cases (slug_step this (fields this)))
    as [(e1 & -> & Hid & _)|(-> & _)]; [|exact Hs].
  destruct (time_step_cases e1) as [(e2 & -> & Hid2 & _)|(v & -> & _)]; simpl; congruence.
Qed.

(** A rejected date makes the hook return at once: nothing after the
    slug assignment runs. *)
Lemma preSave_date_rejected :
  date_rejected Date_parse this ->
  preSave Date_parse this = (slug_step this (fields this), Some InvalidDate).
Proof.
  intros (Hmod & Hre & Hparse). unfold preSave, date_step.
  assert (Hd : date (slug_step this (fields this)) = date (fields this)).
  { unfold slug_step. now destruct (isModified this "title"). }
  rewrite Hmod, Hd, Hre, Hparse. reflexivity.
Qed.

Lemma slug_step_time e : time (slug_step this e) = time e.
Proof. unfold slug_step. now destruct (isModified this "title"). Qed.

Lemma slug_step_date e : date (slug_step this e) = date e.
Proof. unfold slug_step. now destruct (isModified this "title"). Qed.

(** A rejected time makes the hook return an [Error] and keeps the
    field, whatever the date step did before. *)
Lemma preSave_time_rejected :
  time_rejected this ->
  exists v, snd (preSave Date_parse this) = Some v /\
            time (fst (preSave Date_parse this)) = time (fields this).
Proof.
  intros (Hmod & Hre & Hparts). unfold preSave.
  destruct (date_step_cases (slug_step this (fields this)))
    as [(e1 & -> & _ & _ & Ht)|(-> & _)].
  - rewrite slug_step_time in Ht. unfold time_step. rewrite Hmod, Ht, Hre. simpl.
    destruct Hparts as [->|(p1 & p2 & -> & Hrange)].
    + simpl. eauto.
    + apply orb_true_iff in Hrange. cbv zeta. rewrite Hrange. simpl. eauto.
  - simpl. rewrite slug_step_time. eauto.
Qed.

Variable w : World.

Lemma write_accepted isNew e :
  accepted isNew e w ->
  write isNew e w =
    (Ok e, with_events (<[ev_id e := e]> (events w))
             (with_call (Call_write_Event (ev_id e)) w)).
Proof.
  intros (Hup & Hid & Hslug). unfold write, bind.
  rewrite driver_up by assumption. cbn [id with_call events]. cbv zeta.
  rewrite Hid, Hslug. now destruct isNew.
Qed.

Lemma write_slug_conflict isNew e :
  outage w = None ->
  bool_decide (is_Some (events w !! ev_id e)) = negb isNew ->
  slug_taken (events w) e = true ->
  write isNew e w =
    (Throw (Thrown_Error (DuplicateKey "slug_1")),
     with_call (Call_write_Event (ev_id e)) w).
Proof.
  intros Hup Hid Hslug. unfold write, bind.
  rewrite driver_up by assumption. cbn [id with_call events]. cbv zeta.
  rewrite Hid, Hslug. now destruct isNew.
Qed.

Lemma save_valid :
  validate (fields this) = None ->
  save Date_parse this w = write (isNew this) (to_write Date_parse this w) w.
Proof.
  intros Hval. unfold save, to_write. rewrite Hval.
  destruct (preSave Date_parse this) as [e r]. reflexivity.
Qed.

Lemma accepted_stamp isNew created updated e :
  accepted isNew e w -> accepted isNew (set_timestamps created updated e) w.
Proof. intros H. exact H. Qed.

(** A valid document whose write is accepted is stored as the hook
    left it, whatever the hook returned. *)
Lemma save_completes :
  validate (fields this) = None ->
  accepted (isNew this) (fst (preSave Date_parse this)) w ->
  fst (save Date_parse this w) = Ok (to_write Date_parse this w) /\
  events (snd (save Date_parse this w)) !! ev_id (fields this) = Some (to_write Date_parse this w).
Proof.
  intros Hval Hacc. rewrite save_valid by assumption.
  rewrite write_accepted by (apply accepted_stamp, Hacc).
  simpl. split; [reflexivity|].
  change (ev_id (to_write Date_parse this w)) with (ev_id (fst (preSave Date_parse this))).
  rewrite preSave_ev_id. apply lookup_insert_eq.
Qed.

End EventFacts.

(** C9.  When the date or the time fails the hook's checks, the hook
    returns the [Error] as an ordinary value: the hook function
    completes with [Some] error as its result, nothing is thrown and
    nothing reaches the middleware chain.  The save of an otherwise
    valid document therefore completes, and the stored record holds the
    rejected field exactly as it was given. *)
Theorem event_check_error_is_only_returned
    (Date_parse : string -> option Z) (this : Document IEvent) (w : World) :
  EventSchema.date_rejected Date_parse this \/ EventSchema.time_rejected this ->
  EventSchema.validate (fields this) = None ->
  EventSchema.accepted (isNew this) (fst (EventSchema.preSave Date_parse this)) w ->
  (exists v, snd (EventSchema.preSave Date_parse this) = Some v) /\
  exists stored,
    fst (EventSchema.save Date_parse this w) = Ok stored /\
    events (snd (EventSchema.save Date_parse this w)) !! ev_id (fields this)
      = Some stored /\
    (EventSchema.date_rejected Date_parse this -> date stored = date (fields this)) /\
    (EventSchema.time_rejected this -> time stored = time (fields this)).
Proof.
  intros Hrej Hval Hacc.
  destruct (save_completes Date_parse this w Hval Hacc) as [Hok Hstored].
  split.
  - destruct Hrej as [Hd|Ht].
    + rewrite (preSave_date_rejected _ _ Hd). simpl. eauto.
    + destruct (preSave_time_rejected Date_parse this Ht) as (v & Hv & _). eauto.
  - exists (EventSchema.to_write Date_parse this w).
    split; [exact Hok|]. split; [exact Hstored|]. split.
    + intros Hd. unfold EventSchema.to_write.
      rewrite (preSave_date_rejected _ _ Hd). simpl. apply slug_step_date.
    + intros Ht. destruct (preSave_time_rejected Date_parse this Ht) as (v & _ & Hraw).
      exact Hraw.
Qed.

Lemma event_check_error_is_only_returned_witness :
  exists stored,
    fst (EventSchema.save parses_nothing
           (sample_event "6905f39ac1d4e5b6a7f80911" "Tech Meetup" "someday" "7pm")
           sample_world) = Ok stored /\
    date stored = "someday" /\ time stored = "7pm".
Proof.
  destruct (event_check_error_is_only_returned parses_nothing
              (sample_event "6905f39ac1d4e5b6a7f80911" "Tech Meetup" "someday" "7pm")
              sample_world)
    as (_ & stored & Hok & _ & Hdate & Htime).
  - left. repeat split; reflexivity.
  - reflexivity.
  - split; [reflexivity|]. split; reflexivity.
  - exists stored. split; [exact Hok|]. split.
    + apply Hdate. repeat split; reflexivity.
    + apply Htime. split; [reflexivity|]. split; [reflexivity|]. left. reflexivity.
Defined.

(** C10.  A date of the shape NNNN-NN-NN is taken as it is: the hook
    neither changes nor rejects it and no calendar check is made, so
    the save of an otherwise valid document stores it unchanged.  The
    witness below is the impossible date 2025-13-99. *)
Theorem canonical_shaped_date_is_stored_unchanged
    (Date_parse : string -> option Z) (this : Document IEvent) (w : World) :
  EventSchema.dateRegex_test (date (fields this)) = true ->
  EventSchema.validate (fields this) = None ->
  EventSchema.accepted (isNew this) (fst (EventSchema.preSave Date_parse this)) w ->
  date (fst (EventSchema.preSave Date_parse this)) = date (fields this) /\
  snd (EventSchema.preSave Date_parse this) <> Some EventSchema.InvalidDate /\
  exists stored,
    fst (EventSchema.save Date_parse this w) = Ok stored /\
    events (snd (EventSchema.save Date_parse this w)) !! ev_id (fields this)
      = Some stored /\
    date stored = date (fields this).
Proof.
  intros Hre Hval Hacc.
  assert (Hhook : date (fst (EventSchema.preSave Date_parse this)) = date (fields this) /\
                  snd (EventSchema.preSave Date_parse this) <> Some EventSchema.InvalidDate).
  { unfold EventSchema.preSave, EventSchema.date_step.
    rewrite slug_step_date, Hre.
    replace (if isModified this "date" then _ else _)
      with (EventSchema.Continue (EventSchema.slug_step this (fields this)))
      by (now destruct (isModified this "date")).
    destruct (time_step_cases this (EventSchema.slug_step this (fields this)))
      as [(e' & -> & _ & _ & Hd)|(v & -> & Hv)]; simpl.
    - rewrite Hd, slug_step_date. split; [reflexivity|discriminate].
    - rewrite slug_step_date. split; [reflexivity|].
      destruct Hv as [-> | ->]; discriminate. }
  destruct Hhook as [Hkept Hnoerr].
  split; [exact Hkept|]. split; [exact Hnoerr|].
  destruct (save_completes Date_parse this w Hval Hacc) as [Hok Hstored].
  exists (EventSchema.to_write Date_parse this w).
  split; [exact Hok|]. split; [exact Hstored|]. exact Hkept.
Qed.

Lemma canonical_shaped_date_is_stored_unchanged_witness :
  exists stored,
    fst (EventSchema.save parses_nothing
           (sample_event "6905f39ac1d4e5b6a7f80911" "Tech Meetup" "2025-13-99" "18:30")
           sample_world) = Ok stored /\
    date stored = "2025-13-99".
Proof.
  destruct (canonical_shaped_date_is_stored_unchanged parses_nothing
              (sample_event "6905f39ac1d4e5b6a7f80911" "Tech Meetup" "2025-13-99" "18:30")
              sample_world)
    as (_ & _ & stored & Hok & _ & Hdate).
  - reflexivity.
  - reflexivity.
  - split; [reflexivity|]. split; reflexivity.
  - exists stored. split; [exact Hok|exact Hdate].
Defined.

(** C3, at a date no engine parses.  The hook creates the "Invalid date
    format" error and returns it; the save does not fail: it completes
    and the record is stored with the date as given. *)
Theorem unparseable_date_is_saved (Date_parse : string -> option Z) :
  Date_parse "not a date" = None ->
  let this := sample_event "6905f39ac1d4e5b6a7f80911" "Tech Meetup" "not a date" "18:30" in
  snd (EventSchema.preSave Date_parse this) = Some EventSchema.InvalidDate /\
  exists stored,
    fst (EventSchema.save Date_parse this sample_world) = Ok stored /\
    events (snd (EventSchema.save Date_parse this sample_world))
      !! "6905f39ac1d4e5b6a7f80911" = Some stored /\
    date stored = "not a date".
Proof.
  intros Hnan this.
  assert (Hrej : EventSchema.date_rejected Date_parse this).
  { split; [reflexivity|]. split; [reflexivity|exact Hnan]. }
  pose proof (preSave_date_rejected Date_parse this Hrej) as Hpre.
  split; [now rewrite Hpre|].
  destruct (save_completes Date_parse this sample_world) as [Hok Hstored].
  - reflexivity.
  - rewrite Hpre. split; [reflexivity|]. split; reflexivity.
  - exists (EventSchema.to_write Date_parse this sample_world).
    split; [exact Hok|]. split; [exact Hstored|].
    unfold EventSchema.to_write. rewrite Hpre. reflexivity.
Qed.

Lemma unparseable_date_is_saved_witness :
  exists stored,
    fst (EventSchema.save parses_nothing
           (sample_event "6905f39ac1d4e5b6a7f80911" "Tech Meetup" "not a date" "18:30")
           sample_world) = Ok stored /\
    date stored = "not a date".
Proof.
  destruct (unparseable_date_is_saved parses_nothing) as (_ & stored & Hok & _ & Hdate).
  - reflexivity.
  - exists stored. split; [exact Hok|exact Hdate].
Defined.

(** C4, as the code has it.  On a document whose time is new or
    changed, the time step of the hook leaves "9:5" alone and creates
    the "Invalid time format" error for it, since the pattern it parses
    wants two minute digits; it is "9:05" that becomes "09:05"; and for
    "25:00" it creates the "Hours must be 0-23 and minutes 0-59" error. *)
Theorem time_step_examples (this : Document IEvent) (e : IEvent) :
  isModified this "time" = true ->
  (time e = "9:5" ->
   EventSchema.time_step this e = EventSchema.Return e EventSchema.InvalidTime_format) /\
  (time e = "9:05" ->
   EventSchema.time_step this e = EventSchema.Continue (EventSchema.set_time "09:05" e)) /\
  (time e = "25:00" ->
   EventSchema.time_step this e = EventSchema.Return e EventSchema.InvalidTime_range).
Proof.
  intros Hmod. unfold EventSchema.time_step. rewrite Hmod.
  repeat split; intros ->; reflexivity.
Qed.

Lemma time_step_examples_witness :
  let this := sample_event "6905f39ac1d4e5b6a7f80911" "Tech Meetup" "2025-11-20" "9:5" in
  EventSchema.time_step this (fields this)
    = EventSchema.Return (fields this) EventSchema.InvalidTime_format.
Proof.
  intros this.
  destruct (time_step_examples this (fields this)) as (H & _ & _).
  - reflexivity.
  - apply H. reflexivity.
Defined.

(** C4 as stated fails on "9:5": the hook does not turn it into "09:05",
    and the record is stored with the time "9:5". *)
Lemma time_9_5_is_not_zero_padded :
  let this := sample_event "6905f39ac1d4e5b6a7f80911" "Tech Meetup" "2025-11-20" "9:5" in
  time (fst (EventSchema.preSave parses_nothing this)) <> "09:05" /\
  time <$> (events (snd (EventSchema.save parses_nothing this sample_world))
              !! "6905f39ac1d4e5b6a7f80911") = Some "9:5".
Proof.
  split.
  - vm_compute. discriminate.
  - vm_compute. reflexivity.
Qed.

(** C5, at an hour above 23.  The hook creates the out-of-range error
    for "24:30" and returns it; the save does not fail: it completes
    and the record is stored with the time "24:30". *)
Theorem out_of_range_time_is_saved (Date_parse : string -> option Z) :
  let this := sample_event "6905f39ac1d4e5b6a7f80911" "Tech Meetup" "2025-11-20" "24:30" in
  snd (EventSchema.preSave Date_parse this) = Some EventSchema.InvalidTime_range /\
  exists stored,
    fst (EventSchema.save Date_parse this sample_world) = Ok stored /\
    events (snd (EventSchema.save Date_parse this sample_world))
      !! "6905f39ac1d4e5b6a7f80911" = Some stored /\
    time stored = "24:30".
Proof.
  intros this. split; [reflexivity|].
  destruct (save_completes Date_parse this sample_world) as [Hok Hstored].
  - reflexivity.
  - split; [reflexivity|]. split; reflexivity.
  - exists (EventSchema.to_write Date_parse this sample_world).
    split; [exact Hok|]. split; [exact Hstored|]. reflexivity.
Qed.

(** C2, at two trimmed, non-empty titles.  The slug the hook derives
    for "Hello World !" ends in a hyphen and the one for
    "snake_case talk" holds an underscore: neither is of the slug
    format, and the lookup route accepts neither as a slug. *)
Theorem derived_slug_outside_slug_format (Date_parse : string -> option Z) :
  let id := "6905f39ac1d4e5b6a7f80911" in
  let slug_of title :=
    slug (fst (EventSchema.preSave Date_parse
                 (sample_event id title "2025-11-20" "18:30"))) in
  (trim "Hello World !" = "Hello World !" /\
   slug_of "Hello World !" = "hello-world-" /\
   slug_format (slug_of "Hello World !") = false /\
   Route.isValidSlug (slug_of "Hello World !") = false) /\
  (trim "snake_case talk" = "snake_case talk" /\
   slug_of "snake_case talk" = "snake_case-talk" /\
   slug_format (slug_of "snake_case talk") = false /\
   Route.isValidSlug (slug_of "snake_case talk") = false).
Proof. repeat split; reflexivity. Qed.

(** ** The lookup route *)

(** C6, as the code has it.  The route lowercases and trims and does
    nothing else: "Tech Meetup!" becomes "tech meetup!", which is not of
    the slug shape, so the answer is the 400 InvalidFormat response and
    the world is left as it was: no connection, no query. *)
Theorem raw_title_is_rejected_by_lookup (w : World) :
  trim (toLowerCase "Tech Meetup!") = "tech meetup!" /\
  Route.isValidSlug "tech meetup!" = false /\
  Route.GET "Tech Meetup!" w = (Ok Route.InvalidFormat, w).
Proof. repeat split; reflexivity. Qed.

(** C6 as stated fails: the normalised value is not "tech-meetup", the
    request is answered with the format error and no lookup is made. *)
Lemma raw_title_is_not_looked_up :
  trim (toLowerCase "Tech Meetup!") <> "tech-meetup" /\
  fst (Route.GET "Tech Meetup!" sample_world) = Ok Route.InvalidFormat /\
  calls (snd (Route.GET "Tech Meetup!" sample_world)) = [].
Proof.
  split; [vm_compute; discriminate|]. split; reflexivity.
Qed.

(** C7, as the code has it.  A slug that is not blank (empty or white
    space only) and whose lowercased, trimmed form is not of the slug
    shape is answered with the 400 InvalidFormat response, and the world
    is left as it was: no connection is opened and no query is made. *)
Theorem malformed_slug_is_rejected_without_store_access (slug : string) (w : World) :
  trim slug <> "" ->
  Route.isValidSlug (trim (toLowerCase slug)) = false ->
  Route.GET slug w = (Ok Route.InvalidFormat, w) /\
  Route.status Route.InvalidFormat = 400.
Proof.
  intros Hblank Hshape. split; [|reflexivity].
  unfold Route.GET, try_catch.
  destruct (String.eqb_spec slug "") as [->|_]; [now elim Hblank|].
  destruct (String.eqb_spec (trim slug) "") as [Heq|_]; [now elim Hblank|].
  simpl. rewrite Hshape. reflexivity.
Qed.

Lemma malformed_slug_is_rejected_without_store_access_witness :
  Route.GET "UPPER_CASE" sample_world = (Ok Route.InvalidFormat, sample_world).
Proof.
  apply (malformed_slug_is_rejected_without_store_access "UPPER_CASE" sample_world).
  - vm_compute. discriminate.
  - reflexivity.
Defined.

(** C7 as stated fails on a slug made of one space: it is not empty and
    its normalised form is not of the slug shape, yet the answer is the
    missing-parameter response, not the format error. *)
Lemma blank_slug_is_reported_missing :
  " " <> "" /\
  Route.isValidSlug (trim (toLowerCase " ")) = false /\
  fst (Route.GET " " sample_world) = Ok Route.MissingParameter /\
  Route.MissingParameter <> Route.InvalidFormat.
Proof.
  split; [discriminate|]. split; [reflexivity|]. split; [reflexivity|discriminate].
Qed.

(** ** The shape of derived slugs *)

Lemma toLowerCase_char_not_upper (c : ascii) : is_upper (toLowerCase_char c) = false.
Proof. destruct c as [[] [] [] [] [] [] [] []]; reflexivity. Qed.

Lemma kept_lower_char (c : ascii) :
  is_word c || is_space c || is_hyphen c = true ->
  is_upper c = false -> is_space c = false -> is_slug_char c = true.
Proof. destruct c as [[] [] [] [] [] [] [] []]; vm_compute; congruence. Qed.

Lemma slug_char_fixed (c : ascii) :
  is_slug_char c = true -> toLowerCase_char c = c /\ is_space c = false.
Proof. destruct c as [[] [] [] [] [] [] [] []]; vm_compute; intuition congruence. Qed.

Lemma all_chars_impl (p q : ascii -> bool) (s : string) :
  (forall c, p c = true -> q c = true) ->
  all_chars p s = true -> all_chars q s = true.
Proof.
  intros Hpq. induction s as [|c s IH]; simpl; [easy|].
  rewrite !andb_true_iff. intros [Hc Hs]. auto.
Qed.

Lemma all_chars_remove_not (keep p : ascii -> bool) (s : string) :
  all_chars p s = true ->
  all_chars (fun c => keep c && p c) (remove_not keep s) = true.
Proof.
  induction s as [|c s IH]; simpl; [easy|].
  rewrite andb_true_iff. intros [Hc Hs].
  destruct (keep c) eqn:Hk; simpl; [|auto].
  rewrite Hk, Hc. simpl. auto.
Qed.

Lemma all_chars_toLowerCase (s : string) :
  all_chars (fun c => negb (is_upper c)) (toLowerCase s) = true.
Proof.
  induction s as [|c s IH]; simpl; [easy|].
  now rewrite toLowerCase_char_not_upper, IH.
Qed.

Lemma hyphen_append (s : string) : "-" +:+ s = String "-" s.
Proof. reflexivity. Qed.

Lemma all_chars_replace_runs (cls p : ascii -> bool) (b : bool) (s : string) :
  all_chars p s = true ->
  all_chars (fun c => (p c && negb (cls c)) || is_hyphen c)
    (replace_runs_from cls "-" b s) = true.
Proof.
  revert b. induction s as [|c s IH]; intros b; simpl; [easy|].
  rewrite andb_true_iff. intros [Hc Hs].
  destruct (cls c) eqn:Hcls.
  - destruct b; [auto|]. rewrite hyphen_append. simpl.
    rewrite IH by assumption.
    replace (is_hyphen "-") with true by reflexivity.
    now rewrite orb_true_r.
  - simpl. rewrite Hc, Hcls. simpl. auto.
Qed.

Lemma trimStart_fixed (s : string) :
  all_chars (fun c => negb (is_space c)) s = true -> trimStart s = s.
Proof.
  destruct s as [|c s]; simpl; [easy|].
  destruct (is_space c); [discriminate|reflexivity].
Qed.

Lemma trimEnd_fixed (s : string) :
  all_chars (fun c => negb (is_space c)) s = true -> trimEnd s = s.
Proof.
  induction s as [|c s IH]; simpl; [easy|].
  rewrite andb_true_iff. intros [Hc Hs]. rewrite IH by assumption.
  destruct s; [|reflexivity].
  destruct (is_space c); [discriminate|reflexivity].
Qed.

Lemma trim_fixed (s : string) :
  all_chars (fun c => negb (is_space c)) s = true -> trim s = s.
Proof.
  intros H. unfold trim. rewrite trimStart_fixed by assumption.
  now apply trimEnd_fixed.
Qed.

Lemma toLowerCase_fixed (s : string) :
  all_chars is_slug_char s = true -> toLowerCase s = s.
Proof.
  induction s as [|c s IH]; simpl; [easy|].
  rewrite andb_true_iff. intros [Hc Hs].
  destruct (slug_char_fixed c Hc) as [-> _]. now rewrite IH.
Qed.

Lemma slug_chars_no_space (s : string) :
  all_chars is_slug_char s = true ->
  all_chars (fun c => negb (is_space c)) s = true.
Proof.
  apply all_chars_impl. intros c Hc.
  destruct (slug_char_fixed c Hc) as [_ ->]. reflexivity.
Qed.

Lemma single_hyphens_replace_runs (b : bool) (s : string) :
  single_hyphens (replace_runs_from is_hyphen "-" b s) = true /\
  (b = true -> starts_with_hyphen (replace_runs_from is_hyphen "-" b s) = false).
Proof.
  revert b. induction s as [|c s IH]; intros b; simpl; [easy|].
  destruct (is_hyphen c) eqn:Hc.
  - destruct b.
    + apply IH.
    + rewrite hyphen_append. destruct (IH true) as [Hs Hstart].
      split; [|discriminate].
      simpl. destruct (replace_runs_from is_hyphen "-" true s) as [|d r]; [reflexivity|].
      simpl in Hstart. rewrite (Hstart eq_refl). simpl. exact Hs.
  - destruct (IH false) as [Hs _]. split; [|intros _; simpl; exact Hc].
    simpl. rewrite Hc. simpl.
    destruct (replace_runs_from is_hyphen "-" false s); [reflexivity|exact Hs].
Qed.

(** What the derivation does guarantee: the slug is made of characters
    of [[a-z0-9_-]] only, has no two hyphens in a row, and the
    [lowercase] and [trim] setters of the [slug] path leave it as it is. *)
Lemma slugify_shape (title : string) :
  all_chars is_slug_char (EventSchema.slugify title) = true /\
  single_hyphens (EventSchema.slugify title) = true /\
  trim (toLowerCase (EventSchema.slugify title)) = EventSchema.slugify title.
Proof.
  unfold EventSchema.slugify.
  set (keep := fun c => is_word c || is_space c || is_hyphen c).
  set (s2 := remove_not keep (toLowerCase title)).
  set (s3 := replace_runs is_space "-" s2).
  set (s4 := replace_runs is_hyphen "-" s3).
  assert (H2 : all_chars (fun c => keep c && negb (is_upper c)) s2 = true).
  { apply all_chars_remove_not, all_chars_toLowerCase. }
  assert (H3 : all_chars is_slug_char s3 = true).
  { eapply all_chars_impl; [|apply all_chars_replace_runs, H2].
    intros c. simpl. rewrite orb_true_iff, !andb_true_iff, !negb_true_iff.
    intros [[[Hk Hu] Hsp]|Hh].
    - now apply kept_lower_char.
    - unfold is_slug_char. rewrite Hh. apply orb_true_r. }
  assert (H4 : all_chars is_slug_char s4 = true).
  { eapply all_chars_impl; [|apply all_chars_replace_runs, H3].
    intros c. simpl. rewrite orb_true_iff, andb_true_iff.
    intros [[Hc _]|Hh]; [exact Hc|].
    unfold is_slug_char. rewrite Hh. apply orb_true_r. }
  assert (Ht : trim s4 = s4) by (apply trim_fixed, slug_chars_no_space, H4).
  rewrite Ht. split; [exact H4|]. split.
  - apply (single_hyphens_replace_runs false s3).
  - rewrite toLowerCase_fixed by exact H4. exact Ht.
Qed.

(** ** The unique index on [slug] *)

Lemma slug_taken_spec (es : gmap string IEvent) (e : IEvent) :
  EventSchema.slug_taken es e = true <->
  exists i e', es !! i = Some e' /\ i <> ev_id e /\ slug e' = slug e.
Proof.
  unfold EventSchema.slug_taken. rewrite bool_decide_eq_true.
  unfold map_Exists. reflexivity.
Qed.

Lemma slug_unique_insert (es : gmap string IEvent) (e : IEvent) :
  EventSchema.slug_unique es ->
  EventSchema.slug_taken es e = false ->
  EventSchema.slug_unique (<[ev_id e := e]> es).
Proof.
  intros Huniq Hfree i j ei ej Hi Hj Hslug.
  assert (Hno : forall k ek, es !! k = Some ek -> k <> ev_id e -> slug ek <> slug e).
  { intros k ek Hk Hne Heq.
    assert (Ht : EventSchema.slug_taken es e = true)
      by (apply slug_taken_spec; eauto).
    congruence. }
  destruct (decide (i = ev_id e)) as [->|Hin], (decide (j = ev_id e)) as [->|Hjn].
  - reflexivity.
  - rewrite lookup_insert_eq in Hi. rewrite lookup_insert_ne in Hj by congruence.
    injection Hi as <-. now elim (Hno j ej Hj Hjn).
  - rewrite lookup_insert_eq in Hj. rewrite lookup_insert_ne in Hi by congruence.
    injection Hj as <-. now elim (Hno i ei Hi Hin).
  - rewrite lookup_insert_ne in Hi, Hj by congruence. eauto.
Qed.

(** A write either leaves the collection as it is or adds the document
    under a slug no other stored event has. *)
Lemma write_events (isNew : bool) (e : IEvent) (w : World) :
  events (snd (EventSchema.write isNew e w)) = events w \/
  (EventSchema.slug_taken (events w) e = false /\
   events (snd (EventSchema.write isNew e w)) = <[ev_id e := e]> (events w)).
Proof.
  unfold EventSchema.write, bind.
  destruct (outage w) as [t|] eqn:Hout.
  - rewrite (driver_down _ _ _ t Hout). left. reflexivity.
  - rewrite driver_up by assumption. cbn [id with_call events]. cbv zeta.
    destruct (isNew && _); [left; reflexivity|].
    destruct (negb isNew && _); [left; reflexivity|].
    destruct (EventSchema.slug_taken (events w) e) eqn:Htaken; [left; reflexivity|].
    right. split; reflexivity.
Qed.

Lemma save_events (Date_parse : string -> option Z) (this : Document IEvent) (w : World) :
  events (snd (EventSchema.save Date_parse this w)) = events w \/
  exists e, EventSchema.slug_taken (events w) e = false /\
            events (snd (EventSchema.save Date_parse this w)) = <[ev_id e := e]> (events w).
Proof.
  unfold EventSchema.save.
  destruct (EventSchema.validate (fields this)); [left; reflexivity|].
  destruct (EventSchema.preSave Date_parse this) as [e r].
  unfold bind, get_world.
  destruct (write_events (isNew this) (EventSchema.stamp (isNew this) (now w) e) w)
    as [H|H]; [left; exact H|right; eauto].
Qed.

Lemma preSave_slug (Date_parse : string -> option Z) (this : Document IEvent) :
  isModified this "title" = true ->
  slug (fst (EventSchema.preSave Date_parse this))
    = EventSchema.slugify (title (fields this)).
Proof.
  intros Hmod. unfold EventSchema.preSave.
  assert (Hs : slug (EventSchema.slug_step this (fields this))
               = EventSchema.slugify (title (fields this))).
  { unfold EventSchema.slug_step. rewrite Hmod. simpl. apply slugify_shape. }
  destruct (date_step_cases Date_parse this (EventSchema.slug_step this (fields this)))
    as [(e1 & -> & _ & Hs1 & _)|(-> & _)]; [|exact Hs].
  destruct (time_step_cases this e1) as [(e2 & -> & _ & Hs2 & _)|(v & -> & _)];
    simpl; congruence.
Qed.

(** C8.  Slugs stay pairwise distinct over the stored events whatever
    is saved; and the insert of a new, valid event whose title derives
    the slug of an event that is already stored fails with the
    duplicate-key error of the slug index, the collection, and with it
    the first record, being left as they were. *)
Theorem slug_stays_unique
    (Date_parse : string -> option Z) (this : Document IEvent) (w : World) :
  EventSchema.slug_unique (events w) ->
  EventSchema.slug_unique (events (snd (EventSchema.save Date_parse this w))) /\
  forall id1 e1,
    events w !! id1 = Some e1 ->
    slug e1 = EventSchema.slugify (title (fields this)) ->
    isNew this = true ->
    isModified this "title" = true ->
    EventSchema.validate (fields this) = None ->
    outage w = None ->
    events w !! ev_id (fields this) = None ->
    fst (EventSchema.save Date_parse this w)
      = Throw (Thrown_Error (DuplicateKey "slug_1")) /\
    events (snd (EventSchema.save Date_parse this w)) = events w /\
    events (snd (EventSchema.save Date_parse this w)) !! id1 = Some e1.
Proof.
  intros Huniq. split.
  - destruct (save_events Date_parse this w) as [->|(e & Hfree & ->)];
      [exact Huniq|now apply slug_unique_insert].
  - intros id1 e1 Hstored Hslug Hnew Hmod Hval Hup Hfresh.
    rewrite save_valid by assumption.
    assert (Hid : ev_id (EventSchema.to_write Date_parse this w) = ev_id (fields this))
      by apply preSave_ev_id.
    rewrite write_slug_conflict.
    + simpl. auto.
    + assumption.
    + rewrite Hid, Hnew, Hfresh. reflexivity.
    + apply slug_taken_spec. exists id1, e1. split; [assumption|]. split.
      * rewrite Hid. intros ->. congruence.
      * rewrite Hslug. symmetry. apply (preSave_slug Date_parse this Hmod).
Qed.

Lemma slug_unique_empty : EventSchema.slug_unique ∅.
Proof. intros i j ei ej Hi. rewrite lookup_empty in Hi. discriminate. Qed.

Lemma slug_stays_unique_witness :
  fst (EventSchema.save parses_nothing second_meetup world_with_meetup)
    = Throw (Thrown_Error (DuplicateKey "slug_1")) /\
  events (snd (EventSchema.save parses_nothing second_meetup world_with_meetup))
    = events world_with_meetup.
Proof.
  destruct (slug_stays_unique parses_nothing first_meetup sample_world slug_unique_empty)
    as [Huniq _].
  destruct (slug_stays_unique parses_nothing second_meetup world_with_meetup Huniq)
    as [_ Hdup].
  destruct (Hdup "6905f39ac1d4e5b6a7f80911"
              (EventSchema.to_write parses_nothing first_meetup sample_world))
    as (Hfail & Hsame & _); try reflexivity.
  split; [exact Hfail|exact Hsame].
Defined.

(** ** The time check on every H:MM and HH:MM input *)

Lemma time_step_outcome (this : Document IEvent) (e : IEvent) :
  isModified this "time" = true ->
  EventSchema.time_step this e =
    match time_outcome (time e) with
    | Kept => EventSchema.Continue e
    | Padded s => EventSchema.Continue (EventSchema.set_time s e)
    | Rejected v => EventSchema.Return e v
    end.
Proof.
  intros Hmod. unfold EventSchema.time_step, time_outcome. rewrite Hmod.
  destruct (EventSchema.timeRegex_test (time e)); simpl; [reflexivity|].
  destruct (EventSchema.timeParts_match (time e)) as [[p1 p2]|]; [|reflexivity].
  cbv zeta. now destruct (_ || _).
Qed.

Lemma is_digit_decimal (c : ascii) : is_digit c = true -> In c decimal_digits.
Proof.
  destruct c as [[] [] [] [] [] [] [] []]; vm_compute; intros H;
    try discriminate; tauto.
Qed.

Lemma time_check_all_holds :
  forallb (fun m1 => forallb (fun m2 => forallb (fun h1 =>
    time_check_ok [h1] m1 m2 &&
    forallb (fun h2 => time_check_ok [h1; h2] m1 m2) decimal_digits)
    decimal_digits) decimal_digits) decimal_digits = true.
Proof. vm_compute. reflexivity. Qed.

Lemma forallb_In {A} (f : A -> bool) (l : list A) (x : A) :
  forallb f l = true -> In x l -> f x = true.
Proof. intros H. now apply forallb_forall. Qed.

Lemma time_check_H_MM (h1 m1 m2 : ascii) :
  is_digit h1 = true -> is_digit m1 = true -> is_digit m2 = true ->
  time_check_ok [h1] m1 m2 = true.
Proof.
  intros Hh1 Hm1 Hm2.
  pose proof (forallb_In _ _ m1 time_check_all_holds (is_digit_decimal m1 Hm1)) as H1.
  pose proof (forallb_In _ _ m2 H1 (is_digit_decimal m2 Hm2)) as H2.
  pose proof (forallb_In _ _ h1 H2 (is_digit_decimal h1 Hh1)) as H3.
  exact (proj1 (andb_prop _ _ H3)).
Qed.

Lemma time_check_HH_MM (h1 h2 m1 m2 : ascii) :
  is_digit h1 = true -> is_digit h2 = true ->
  is_digit m1 = true -> is_digit m2 = true ->
  time_check_ok [h1; h2] m1 m2 = true.
Proof.
  intros Hh1 Hh2 Hm1 Hm2.
  pose proof (forallb_In _ _ m1 time_check_all_holds (is_digit_decimal m1 Hm1)) as H1.
  pose proof (forallb_In _ _ m2 H1 (is_digit_decimal m2 Hm2)) as H2.
  pose proof (forallb_In _ _ h1 H2 (is_digit_decimal h1 Hh1)) as H3.
  exact (forallb_In _ _ h2 (proj2 (andb_prop _ _ H3)) (is_digit_decimal h2 Hh2)).
Qed.

(** X17.  The half of C5 that holds.  For an input H:MM or HH:MM ([hs] is the
    one or two hour digits) with an hour up to 23 and a minute up to 59,
    the time step goes on with the zero-padded HH:MM text in the field;
    with an hour above 23 or a minute above 59 it returns the range
    error, the field untouched. *)
Lemma time_step_zero_pads (this : Document IEvent) (e : IEvent)
    (hs : list ascii) (m1 m2 : ascii) :
  isModified this "time" = true ->
  (length hs = 1 \/ length hs = 2)%nat ->
  Forall (fun c => is_digit c = true) hs ->
  is_digit m1 = true -> is_digit m2 = true ->
  time e = time_text hs m1 m2 ->
  let hours := decimal_value hs in
  let minutes := decimal_value [m1; m2] in
  (hours <= 23 /\ minutes <= 59 ->
   exists e', EventSchema.time_step this e = EventSchema.Continue e' /\
              time e' = zero_padded hours minutes) /\
  (23 < hours \/ 59 < minutes ->
   EventSchema.time_step this e = EventSchema.Return e EventSchema.InvalidTime_range).
Proof.
  intros Hmod Hlen Hhs Hm1 Hm2 Htime hours minutes.
  assert (Hok : time_check_ok hs m1 m2 = true).
  { destruct hs as [|h1 [|h2 [|h3 hs]]]; simpl in Hlen; try lia.
    - inversion Hhs; subst. now apply time_check_H_MM.
    - inversion Hhs as [|? ? Hh1 Hrest]; subst. inversion Hrest; subst.
      now apply time_check_HH_MM. }
  rewrite time_step_outcome by assumption. rewrite Htime.
  unfold time_check_ok in Hok. fold hours minutes in Hok.
  destruct (time_outcome (time_text hs m1 m2)) as [|s|v].
  - apply andb_true_iff in Hok. destruct Hok as [Hrange Heq].
    apply andb_true_iff in Hrange. destruct Hrange as [Hh Hm].
    apply Z.leb_le in Hh, Hm. apply String.eqb_eq in Heq.
    split; [|lia]. intros _. exists e. split; [reflexivity|]. now rewrite Htime.
  - apply andb_true_iff in Hok. destruct Hok as [Hrange Heq].
    apply andb_true_iff in Hrange. destruct Hrange as [Hh Hm].
    apply Z.leb_le in Hh, Hm. apply String.eqb_eq in Heq.
    split; [|lia]. intros _. eexists. split; [reflexivity|]. exact Heq.
  - apply andb_true_iff in Hok. destruct Hok as [Hrange Heq].
    apply orb_true_iff in Hrange. rewrite !Z.ltb_lt in Hrange.
    apply bool_decide_eq_true in Heq.
    split; [lia|]. intros _. now rewrite Heq.
Qed.

(** ** The slug pattern of the route, in words *)

Lemma lower_alnum_not_hyphen (c : ascii) : is_lower_alnum c = true -> is_hyphen c = false.
Proof. destruct c as [[] [] [] [] [] [] [] []]; vm_compute; congruence. Qed.

Lemma slugRegex_from_spec (b : bool) (s : string) :
  Route.slugRegex_from b s =
    all_chars (fun c => is_lower_alnum c || is_hyphen c) s &&
    single_hyphens s && negb (ends_with_hyphen s) &&
    (b || negb (is_empty s || starts_with_hyphen s)).
Proof.
  revert b. induction s as [|c s IH]; intros b.
  - destruct b; reflexivity.
  - cbn [Route.slugRegex_from all_chars starts_with_hyphen is_empty].
    destruct (is_lower_alnum c) eqn:Ha.
    + rewrite (lower_alnum_not_hyphen c Ha), IH.
      destruct s as [|d s]; simpl; rewrite ?(lower_alnum_not_hyphen c Ha); simpl.
      * now destruct b.
      * rewrite !orb_true_r, !andb_true_r. reflexivity.
    + destruct (is_hyphen c) eqn:Hh; simpl; [|reflexivity].
      rewrite IH. destruct s as [|d s]; simpl; rewrite ?Hh; simpl.
      * now destruct b.
      * destruct b; simpl; rewrite ?andb_false_r; [|reflexivity].
        destruct (is_hyphen d); simpl; rewrite ?andb_false_r, ?andb_true_r; reflexivity.
Qed.

(** The route accepts exactly the non-empty strings of the slug format. *)
Lemma isValidSlug_spec (s : string) :
  Route.isValidSlug s = negb (is_empty s) && slug_format s.
Proof.
  unfold Route.isValidSlug, slug_format. rewrite slugRegex_from_spec.
  destruct (all_chars _ s), (single_hyphens s), (ends_with_hyphen s),
    (is_empty s), (starts_with_hyphen s); reflexivity.
Qed.

(** ** The date text of a parsed date *)

Lemma In_count_from (n : nat) (a z : Z) :
  a <= z < a + Z.of_nat n -> In z (count_from a n).
Proof.
  revert a. induction n as [|n IH]; intros a Hz; [lia|].
  simpl. destruct (Z.eq_dec a z) as [->|Hne]; [now left|].
  right. apply IH. lia.
Qed.

Lemma In_upto (n z : Z) : 0 <= z < n -> In z (upto n).
Proof. intros Hz. apply In_count_from. lia. Qed.

Lemma pad4_digits : forallb (fun y => is_digits 4 (pad 4 y)) (upto 10000) = true.
Proof. vm_compute. reflexivity. Qed.

Lemma pad2_digits : forallb (fun v => is_digits 2 (pad 2 v)) (upto 100) = true.
Proof. vm_compute. reflexivity. Qed.

Lemma month_day_ranges : forallb month_day_in_range (upto 146097) = true.
Proof. vm_compute. reflexivity. Qed.

Lemma civil_from_days_month_day (z : Z) :
  let '(y, m, d) := civil_from_days z in 1 <= m <= 12 /\ 1 <= d <= 31.
Proof.
  pose proof month_day_ranges as H. rewrite forallb_forall in H.
  specialize (H ((z + 719468) mod 146097)).
  assert (Hdoe : z + 719468 - (z + 719468) / 146097 * 146097 = (z + 719468) mod 146097)
    by (rewrite Z.mod_eq; lia).
  unfold civil_from_days. cbv zeta. rewrite Hdoe.
  unfold month_day_in_range, month_day_of_era_day in H. cbv zeta in H.
  assert (Hin : In ((z + 719468) mod 146097) (upto 146097))
    by (apply In_upto; pose proof (Z.mod_pos_bound (z + 719468) 146097); lia).
  specialize (H Hin). rewrite !andb_true_iff, !Z.leb_le in H. lia.
Qed.

Lemma split_head_append (sep : ascii) (a rest : string) :
  all_chars (fun c => negb (Ascii.eqb c sep)) a = true ->
  split_head sep (a +:+ String sep rest) = a.
Proof.
  induction a as [|c a IH]; intros Ha.
  - simpl. now rewrite Ascii.eqb_refl.
  - simpl in Ha. apply andb_true_iff in Ha. destruct Ha as [Hc Ha].
    change (String c a +:+ String sep rest) with (String c (a +:+ String sep rest)).
    simpl. apply negb_true_iff in Hc. rewrite Hc. now rewrite IH.
Qed.

Lemma all_chars_append (p : ascii -> bool) (a b : string) :
  all_chars p (a +:+ b) = all_chars p a && all_chars p b.
Proof.
  induction a as [|c a IH]; [reflexivity|].
  change (String c a +:+ b) with (String c (a +:+ b)).
  simpl. now rewrite IH, andb_assoc.
Qed.

Lemma is_digits_chars (n : nat) (s : string) :
  is_digits n s = true -> all_chars is_digit s = true.
Proof. unfold is_digits. intros H. apply andb_true_iff in H. tauto. Qed.

Lemma digit_not_T (c : ascii) : is_digit c = true -> negb (Ascii.eqb c "T") = true.
Proof. destruct c as [[] [] [] [] [] [] [] []]; vm_compute; congruence. Qed.

(** The shape the hook asks for, assembled from its three groups. *)
Lemma dateRegex_assembled (y m d : string) :
  is_digits 4 y = true -> is_digits 2 m = true -> is_digits 2 d = true ->
  EventSchema.dateRegex_test (y +:+ "-" +:+ m +:+ "-" +:+ d) = true.
Proof.
  unfold is_digits. rewrite !andb_true_iff, !Nat.eqb_eq.
  intros [Hly Hy] [Hlm Hm] [Hld Hd].
  destruct y as [|y1 [|y2 [|y3 [|y4 [|? ?]]]]]; try discriminate.
  destruct m as [|m1 [|m2 [|? ?]]]; try discriminate.
  destruct d as [|d1 [|d2 [|? ?]]]; try discriminate.
  cbn [all_chars] in Hy, Hm, Hd.
  repeat rewrite andb_true_iff in Hy.
  repeat rewrite andb_true_iff in Hm.
  repeat rewrite andb_true_iff in Hd.
  destruct Hy as (Hy1 & Hy2 & Hy3 & Hy4 & _).
  destruct Hm as (Hm1 & Hm2 & _).
  destruct Hd as (Hd1 & Hd2 & _).
  unfold EventSchema.dateRegex_test.
  cbv [String.append String.list_ascii_of_string].
  rewrite Hy1, Hy2, Hy3, Hy4, Hm1, Hm2, Hd1, Hd2. reflexivity.
Qed.

(** The second half of C3.  When the engine parses the date to a time
    value whose UTC year is 0..9999, the hook puts the UTC calendar date
    of that time value in the field, and the text is of the shape
    NNNN-NN-NN. *)
Lemma parsed_date_is_reformatted
    (Date_parse : string -> option Z) (this : Document IEvent) (e : IEvent) (t : Z) :
  isModified this "date" = true ->
  EventSchema.dateRegex_test (date e) = false ->
  Date_parse (date e) = Some t ->
  let '(y, m, d) := civil_from_days (Day t) in
  0 <= y <= 9999 ->
  exists e', EventSchema.date_step Date_parse this e = EventSchema.Continue e' /\
             date e' = pad 4 y +:+ "-" +:+ pad 2 m +:+ "-" +:+ pad 2 d /\
             EventSchema.dateRegex_test (date e') = true.
Proof.
  intros Hmod Hre Hparse.
  pose proof (civil_from_days_month_day (Day t)) as Hmd.
  destruct (civil_from_days (Day t)) as [[y m] d] eqn:Hcivil.
  intros Hy. destruct Hmd as [Hm Hd].
  assert (Hpy : is_digits 4 (pad 4 y) = true).
  { pose proof pad4_digits as H. rewrite forallb_forall in H.
    apply H, In_upto. lia. }
  assert (Hp2 : forall v, 0 <= v < 100 -> is_digits 2 (pad 2 v) = true).
  { intros v Hv. pose proof pad2_digits as H. rewrite forallb_forall in H.
    apply H, In_upto. lia. }
  assert (Hpm : is_digits 2 (pad 2 m) = true) by (apply Hp2; lia).
  assert (Hpd : is_digits 2 (pad 2 d) = true) by (apply Hp2; lia).
  set (text := pad 4 y +:+ "-" +:+ pad 2 m +:+ "-" +:+ pad 2 d).
  assert (Hiso : split_head "T" (toISOString t) = text).
  { unfold toISOString. rewrite Hcivil. unfold year_string.
    replace ((0 <=? y) && (y <=? 9999)) with true
      by (symmetry; apply andb_true_iff; split; apply Z.leb_le; lia).
    assert (Hassoc : forall a b c, a +:+ b +:+ c = (a +:+ b) +:+ c).
    { intros a b c. induction a as [|x a IH]; [reflexivity|].
      change (String x a +:+ b +:+ c) with (String x (a +:+ b +:+ c)).
      now rewrite IH. }
    rewrite !Hassoc. rewrite <- !Hassoc.
    rewrite (Hassoc (pad 4 y)), (Hassoc (pad 4 y +:+ "-")),
      (Hassoc ((pad 4 y +:+ "-") +:+ pad 2 m)),
      (Hassoc (((pad 4 y +:+ "-") +:+ pad 2 m) +:+ "-")).
    change ("T" +:+ ?r) with (String "T" r).
    rewrite split_head_append.
    - unfold text. now rewrite <- !Hassoc.
    - assert (HnoT : forall n v, is_digits n v = true ->
                       all_chars (fun c => negb (Ascii.eqb c "T")) v = true).
      { intros n v Hv. apply (all_chars_impl is_digit _ _ digit_not_T).
        now apply (is_digits_chars n). }
      rewrite !all_chars_append.
      rewrite (HnoT _ _ Hpy), (HnoT _ _ Hpm), (HnoT _ _ Hpd). reflexivity. }
  unfold EventSchema.date_step. rewrite Hmod, Hre, Hparse. simpl.
  eexists. split; [reflexivity|]. simpl. rewrite Hiso.
  split; [reflexivity|]. now apply dateRegex_assembled.
Qed.

(** * Further properties *)

(** ** lib/mongodb.ts: the cached connection *)

(** With a connection in the cache, [connectDB] returns at once. *)
Lemma connectDB_cached (w : World) :
  cached_conn w = true -> connectDB w = (Ok tt, w).
Proof. intros H. unfold connectDB, bind, get_world. now rewrite H. Qed.

(** The three ways a call of [connectDB] can go when nothing is cached
    as a connection. *)
Lemma connectDB_uncached (w : World) :
  cached_conn w = false ->
  let w1 :=
    if cached_promise w then w
    else match MONGODB_URI w with
         | None | Some EmptyString => w
         | Some uri => with_promise true (with_call (Call_connect uri) w)
         end in
  connectDB w =
    if negb (cached_promise w) && negb (uri_set w)
    then (Throw (Thrown_Error config_error), w)
    else match outage w with
         | Some t => (Throw t, with_promise false w1)
         | None => (Ok tt, with_conn true w1)
         end.
Proof.
  intros Hconn.
  cbv [connectDB bind get_world try_catch await_promise update_world throw ret uri_set].
  rewrite Hconn.
  destruct (cached_promise w); simpl.
  - destruct (outage w); reflexivity.
  - destruct (MONGODB_URI w) as [[|c u]|]; simpl; try reflexivity.
    destruct (outage w); reflexivity.
Qed.

Lemma connectDB_collections (w : World) :
  events (snd (connectDB w)) = events w /\
  bookings (snd (connectDB w)) = bookings w.
Proof.
  destruct (cached_conn w) eqn:Hconn.
  - now rewrite (connectDB_cached w Hconn).
  - rewrite (connectDB_uncached w Hconn).
    destruct (negb (cached_promise w) && negb (uri_set w)); [easy|].
    destruct (cached_promise w), (MONGODB_URI w) as [[|c u]|], (outage w); easy.
Qed.

(** X1.  A call that succeeds leaves a connection in the cache, so the
    next call is answered from the cache without touching the driver. *)
Theorem connectDB_memoizes (w w' : World) :
  connectDB w = (Ok tt, w') ->
  cached_conn w' = true /\ connectDB w' = (Ok tt, w').
Proof.
  intros Hok.
  assert (Hc : cached_conn w' = true).
  { destruct (cached_conn w) eqn:Hconn.
    - rewrite (connectDB_cached w Hconn) in Hok. now injection Hok as <-.
    - rewrite (connectDB_uncached w Hconn) in Hok.
      destruct (negb (cached_promise w) && negb (uri_set w)); [discriminate|].
      destruct (outage w); [discriminate|]. now injection Hok as <-. }
  split; [exact Hc|]. unfold connectDB, bind, get_world. now rewrite Hc.
Qed.

Lemma connectDB_memoizes_witness :
  let w' := snd (connectDB fresh_world) in
  cached_conn w' = true /\ connectDB w' = (Ok tt, w').
Proof.
  intros w'. apply (connectDB_memoizes fresh_world w'). reflexivity.
Defined.

(** X2.  [mongoose.connect] is called at most once by a call of
    [connectDB], with the configured URI, and only when neither a
    connection nor an attempt is cached; the collections are not
    touched. *)
Theorem connectDB_single_attempt (w : World) :
  (calls (snd (connectDB w)) = calls w \/
   exists uri,
     cached_conn w = false /\ cached_promise w = false /\
     MONGODB_URI w = Some uri /\ uri <> "" /\
     calls (snd (connectDB w)) = Call_connect uri :: calls w) /\
  events (snd (connectDB w)) = events w /\
  bookings (snd (connectDB w)) = bookings w.
Proof.
  destruct (cached_conn w) eqn:Hconn.
  - rewrite (connectDB_cached w Hconn). simpl. auto.
  - rewrite (connectDB_uncached w Hconn). unfold uri_set.
    destruct (cached_promise w) eqn:Hp; simpl.
    + destruct (outage w); simpl; auto.
    + destruct (MONGODB_URI w) as [[|c u]|] eqn:Huri; simpl; auto.
      destruct (outage w); simpl; (split; [right|auto]);
        exists (String c u); repeat split; auto; discriminate.
Qed.

(** X3.  Without a URI in the environment, and nothing cached, the call
    throws the configuration error before any driver call is made. *)
Theorem connectDB_unconfigured (w : World) :
  cached_conn w = false -> cached_promise w = false -> uri_set w = false ->
  connectDB w = (Throw (Thrown_Error config_error), w).
Proof.
  intros Hconn Hp Huri. rewrite (connectDB_uncached w Hconn), Hp, Huri. reflexivity.
Qed.

Lemma connectDB_unconfigured_witness :
  connectDB unconfigured_world = (Throw (Thrown_Error config_error), unconfigured_world).
Proof. apply (connectDB_unconfigured unconfigured_world); reflexivity. Defined.

(** X4.  A failed attempt is not kept: the error of the driver is
    thrown on, the cached attempt is cleared and no connection is
    cached, so that once the server is back the next call makes a new
    attempt and succeeds. *)
Theorem connectDB_failure_allows_retry (w : World) (t : Thrown) :
  cached_conn w = false -> uri_set w = true -> outage w = Some t ->
  let w' := snd (connectDB w) in
  fst (connectDB w) = Throw t /\
  cached_promise w' = false /\ cached_conn w' = false /\
  exists uri,
    MONGODB_URI w = Some uri /\
    connectDB (with_outage None w') =
      (Ok tt, with_conn true (with_promise true
                (with_call (Call_connect uri) (with_outage None w')))).
Proof.
  intros Hconn Huri Hout w'. subst w'.
  rewrite (connectDB_uncached w Hconn), Huri, Hout, andb_false_r.
  unfold uri_set in Huri.
  destruct (MONGODB_URI w) as [[|c u]|] eqn:Hu; try discriminate.
  assert (Hretry : forall w1,
            cached_conn w1 = false -> MONGODB_URI w1 = Some (String c u) ->
            connectDB (with_outage None (with_promise false w1)) =
              (Ok tt, with_conn true (with_promise true
                        (with_call (Call_connect (String c u))
                           (with_outage None (with_promise false w1)))))).
  { intros w1 Hc1 Hu1. rewrite connectDB_uncached by exact Hc1.
    unfold uri_set. simpl. rewrite Hu1. reflexivity. }
  destruct (cached_promise w); simpl.
  - split; [reflexivity|]. split; [reflexivity|]. split; [exact Hconn|].
    exists (String c u). split; [reflexivity|]. now apply Hretry.
  - split; [reflexivity|]. split; [reflexivity|]. split; [exact Hconn|].
    exists (String c u). split; [reflexivity|]. now apply Hretry.
Qed.

Lemma connectDB_failure_allows_retry_witness :
  fst (connectDB down_world)
    = Throw (Thrown_Error (new_Error "connect ECONNREFUSED 127.0.0.1:27017")) /\
  cached_promise (snd (connectDB down_world)) = false.
Proof.
  destruct (connectDB_failure_allows_retry down_world
              (Thrown_Error (new_Error "connect ECONNREFUSED 127.0.0.1:27017")))
    as (Hthrow & Hp & _); try reflexivity.
  split; [exact Hthrow|exact Hp].
Defined.

(** ** app/api/events/[slug]/route.ts: the lookup *)

Lemma connectDB_outage (w : World) : outage (snd (connectDB w)) = outage w.
Proof.
  destruct (cached_conn w) eqn:Hconn.
  - now rewrite (connectDB_cached w Hconn).
  - rewrite (connectDB_uncached w Hconn).
    destruct (negb (cached_promise w) && negb (uri_set w)); [reflexivity|].
    destruct (cached_promise w), (MONGODB_URI w) as [[|c u]|], (outage w) eqn:Ho;
      simpl; congruence.
Qed.

Lemma connectDB_up (w : World) :
  outage w = None -> connectable w = true ->
  exists w', connectDB w = (Ok tt, w') /\ outage w' = None /\
             events w' = events w /\ bookings w' = bookings w.
Proof.
  intros Hup Hcan.
  destruct (connectDB_collections w) as (He & Hb).
  pose proof (connectDB_outage w) as Ho.
  assert (Hfst : fst (connectDB w) = Ok tt).
  { destruct (cached_conn w) eqn:Hconn.
    - now rewrite (connectDB_cached w Hconn).
    - rewrite (connectDB_uncached w Hconn).
      unfold connectable in Hcan. rewrite Hconn in Hcan. simpl in Hcan.
      replace (negb (cached_promise w) && negb (uri_set w)) with false
        by (destruct (cached_promise w), (uri_set w); simpl in *; congruence).
      now rewrite Hup. }
  exists (snd (connectDB w)).
  destruct (connectDB w) as [r w']. simpl in *. subst r.
  split; [reflexivity|]. split; [congruence|auto].
Qed.

Lemma find_slug_Some (es : gmap string IEvent) (s : string) (e : IEvent) :
  find_slug es s = Some e -> exists i, es !! i = Some e /\ slug e = s.
Proof.
  unfold find_slug.
  destruct (List.find _ _) as [[i e']|] eqn:Hfind; [|discriminate].
  intros [= <-]. apply find_some in Hfind. destruct Hfind as [Hin Heq].
  apply list_elem_of_In, elem_of_map_to_list in Hin.
  apply String.eqb_eq in Heq. eauto.
Qed.

Lemma find_slug_None (es : gmap string IEvent) (s : string) :
  find_slug es s = None -> forall i e, es !! i = Some e -> slug e <> s.
Proof.
  unfold find_slug.
  destruct (List.find _ _) as [kv|] eqn:Hfind; [discriminate|].
  intros _ i e Hi Hs.
  assert (Hin : In (i, e) (map_to_list es))
    by now apply list_elem_of_In, elem_of_map_to_list.
  pose proof (find_none _ _ Hfind (i, e) Hin) as Hno. simpl in Hno.
  apply String.eqb_neq in Hno. contradiction.
Qed.

Lemma toLowerCase_char_space (c : ascii) : is_space (toLowerCase_char c) = is_space c.
Proof. destruct c as [[] [] [] [] [] [] [] []]; reflexivity. Qed.

Lemma toLowerCase_char_idem (c : ascii) :
  toLowerCase_char (toLowerCase_char c) = toLowerCase_char c.
Proof. destruct c as [[] [] [] [] [] [] [] []]; reflexivity. Qed.

Lemma toLowerCase_idem (s : string) : toLowerCase (toLowerCase s) = toLowerCase s.
Proof.
  induction s as [|c s IH]; simpl; [reflexivity|].
  now rewrite toLowerCase_char_idem, IH.
Qed.

Lemma toLowerCase_empty (s : string) : toLowerCase s = "" <-> s = "".
Proof. destruct s; simpl; split; intros H; try reflexivity; discriminate. Qed.

Lemma trimStart_toLowerCase (s : string) :
  trimStart (toLowerCase s) = toLowerCase (trimStart s).
Proof.
  induction s as [|c s IH]; simpl; [reflexivity|].
  rewrite toLowerCase_char_space. now destruct (is_space c).
Qed.

Lemma trimEnd_toLowerCase (s : string) :
  trimEnd (toLowerCase s) = toLowerCase (trimEnd s).
Proof.
  induction s as [|c s IH]; simpl; [reflexivity|].
  rewrite IH, toLowerCase_char_space.
  destruct (trimEnd s); simpl; [|reflexivity].
  now destruct (is_space c).
Qed.

Lemma trim_toLowerCase (s : string) : trim (toLowerCase s) = toLowerCase (trim s).
Proof. unfold trim. now rewrite trimStart_toLowerCase, trimEnd_toLowerCase. Qed.

Lemma trimEnd_idem (s : string) : trimEnd (trimEnd s) = trimEnd s.
Proof.
  induction s as [|c s IH]; simpl; [reflexivity|].
  destruct (trimEnd s) as [|d r] eqn:Hr.
  - destruct (is_space c) eqn:Hc; simpl; [reflexivity|]. now rewrite Hc.
  - change (trimEnd (String c (String d r)))
      with (match trimEnd (String d r) with
            | EmptyString => if is_space c then EmptyString else String c EmptyString
            | t => String c t
            end).
    now rewrite IH.
Qed.

Lemma trimStart_head (s : string) :
  trimStart s = "" \/ exists c r, trimStart s = String c r /\ is_space c = false.
Proof.
  induction s as [|c s IH]; simpl; [now left|].
  destruct (is_space c) eqn:Hc; [exact IH|]. right. eauto.
Qed.

Lemma trimEnd_head (c : ascii) (r : string) :
  is_space c = false -> exists r', trimEnd (String c r) = String c r'.
Proof.
  intros Hc. simpl. destruct (trimEnd r); [|eauto].
  rewrite Hc. eauto.
Qed.

Lemma trim_idem (s : string) : trim (trim s) = trim s.
Proof.
  unfold trim.
  destruct (trimStart_head s) as [->|(c & r & -> & Hc)]; [reflexivity|].
  destruct (trimEnd_head c r Hc) as [r' Hr]. rewrite Hr.
  simpl trimStart. rewrite Hc, <- Hr. apply trimEnd_idem.
Qed.

Lemma normalize_idem (s : string) : normalize (normalize s) = normalize s.
Proof.
  unfold normalize.
  now rewrite !trim_toLowerCase, trim_idem, toLowerCase_idem.
Qed.

Lemma trim_normalize (s : string) : trim (normalize s) = normalize s.
Proof. unfold normalize. now rewrite !trim_toLowerCase, trim_idem. Qed.

Lemma normalize_blank (s : string) : normalize s = "" <-> trim s = "".
Proof. unfold normalize. rewrite trim_toLowerCase. apply toLowerCase_empty. Qed.

(** The route on a slug that passes both checks. *)
Lemma GET_wellformed (slug : string) (w : World) :
  trim slug <> "" ->
  Route.isValidSlug (normalize slug) = true ->
  Route.GET slug w =
    match connectDB w with
    | (Throw t, w1) => (Ok (Route.InternalError t), w1)
    | (Ok _, w1) =>
        match outage w1 with
        | Some t =>
            (Ok (Route.InternalError t), with_call (Call_findOne_Event (normalize slug)) w1)
        | None =>
            (Ok match find_slug (events w1) (normalize slug) with
                | Some e => Route.Fetched e
                | None => Route.NotFound (normalize slug)
                end,
             with_call (Call_findOne_Event (normalize slug)) w1)
        end
    end.
Proof.
  intros Hblank Hshape. unfold Route.GET, try_catch.
  destruct (String.eqb_spec slug "") as [->|_]; [now elim Hblank|].
  destruct (String.eqb_spec (trim slug) "") as [Heq|_]; [now elim Hblank|].
  simpl. fold (normalize slug). rewrite Hshape. simpl.
  unfold bind at 1. destruct (connectDB w) as [[[]|t] w1]; [|reflexivity].
  unfold bind, Event_findOne.
  destruct (outage w1) as [t|] eqn:Ho.
  - rewrite (driver_down _ _ _ t Ho). reflexivity.
  - rewrite driver_up by assumption. cbn [with_call events]. fold (find_slug (events w1) (normalize slug)).
    destruct (find_slug (events w1) (normalize slug)); reflexivity.
Qed.

Lemma GET_missing (slug : string) (w : World) :
  trim slug = "" -> Route.GET slug w = (Ok Route.MissingParameter, w).
Proof.
  intros Hblank. unfold Route.GET, try_catch. rewrite Hblank.
  now rewrite orb_true_r.
Qed.

(** X5.  An empty slug, or one of white space only, is answered with the
    400 "Slug parameter is required" response, the process untouched. *)
Theorem GET_blank_slug (slug : string) (w : World) :
  trim slug = "" ->
  Route.GET slug w = (Ok Route.MissingParameter, w) /\
  Route.status Route.MissingParameter = 400.
Proof. intros Hblank. split; [now apply GET_missing|reflexivity]. Qed.

Lemma GET_blank_slug_witness :
  Route.GET "   " sample_world = (Ok Route.MissingParameter, sample_world).
Proof. apply (GET_blank_slug "   " sample_world). reflexivity. Defined.

Lemma GET_malformed (slug : string) (w : World) :
  trim slug <> "" ->
  Route.isValidSlug (normalize slug) = false ->
  Route.GET slug w = (Ok Route.InvalidFormat, w).
Proof.
  intros Hblank Hshape. unfold Route.GET, try_catch.
  destruct (String.eqb_spec slug "") as [->|_]; [now elim Hblank|].
  destruct (String.eqb_spec (trim slug) "") as [Heq|_]; [now elim Hblank|].
  simpl. fold (normalize slug). now rewrite Hshape.
Qed.

(** X6.  The lookup does not depend on the letter case of the slug or on
    white space around it: a slug that is not blank is treated exactly
    as its normalised form. *)
Theorem GET_normalizes (slug : string) (w : World) :
  trim slug <> "" -> Route.GET slug w = Route.GET (normalize slug) w.
Proof.
  intros Hblank.
  assert (Hn : trim (normalize slug) <> "").
  { rewrite trim_normalize. intros H. apply (proj1 (normalize_blank slug)) in H.
    contradiction. }
  destruct (Route.isValidSlug (normalize slug)) eqn:Hshape.
  - rewrite (GET_wellformed slug w Hblank Hshape).
    assert (Hshape' : Route.isValidSlug (normalize (normalize slug)) = true)
      by (rewrite normalize_idem; exact Hshape).
    rewrite (GET_wellformed (normalize slug) w Hn Hshape').
    now rewrite normalize_idem.
  - rewrite (GET_malformed slug w Hblank Hshape).
    assert (Hshape' : Route.isValidSlug (normalize (normalize slug)) = false)
      by (rewrite normalize_idem; exact Hshape).
    now rewrite (GET_malformed (normalize slug) w Hn Hshape').
Qed.

Lemma GET_normalizes_witness :
  Route.GET "  Tech-Meetup " sample_world = Route.GET "tech-meetup" sample_world.
Proof.
  apply (GET_normalizes "  Tech-Meetup " sample_world). vm_compute. discriminate.
Defined.

Lemma GET_finds (raw : string) (w : World) (i : string) (e : IEvent) :
  trim raw <> "" ->
  outage w = None -> connectable w = true ->
  EventSchema.slug_unique (events w) ->
  events w !! i = Some e ->
  slug e = normalize raw ->
  Route.isValidSlug (normalize raw) = true ->
  fst (Route.GET raw w) = Ok (Route.Fetched e).
Proof.
  intros Hblank Hup Hcan Huniq Hi Hslug Hshape.
  rewrite (GET_wellformed raw w Hblank Hshape).
  destruct (connectDB_up w Hup Hcan) as (w1 & -> & Ho & He & _).
  rewrite Ho, He. simpl.
  destruct (find_slug (events w) (normalize raw)) as [e'|] eqn:Hfind.
  - destruct (find_slug_Some _ _ _ Hfind) as (j & Hj & Hs).
    assert (j = i) by (apply (Huniq j i e' e); congruence). subst j.
    congruence.
  - now elim (find_slug_None _ _ Hfind i e Hi).
Qed.

(** X7.  A stored event is found by its slug: with the server up and
    slugs distinct over the collection, the lookup of a slug whose
    normalised form is the well-formed slug of a stored event answers
    200 with that event. *)
Theorem GET_found (raw : string) (w : World) (i : string) (e : IEvent) :
  trim raw <> "" ->
  outage w = None -> connectable w = true ->
  EventSchema.slug_unique (events w) ->
  events w !! i = Some e ->
  slug e = normalize raw ->
  Route.isValidSlug (normalize raw) = true ->
  fst (Route.GET raw w) = Ok (Route.Fetched e).
Proof. apply GET_finds. Qed.

Lemma GET_found_witness :
  exists e,
    events world_with_meetup !! "6905f39ac1d4e5b6a7f80911" = Some e /\
    fst (Route.GET "Tech-Meetup" world_with_meetup) = Ok (Route.Fetched e).
Proof.
  exists (EventSchema.to_write parses_nothing first_meetup sample_world).
  split; [reflexivity|].
  apply (GET_found "Tech-Meetup" world_with_meetup "6905f39ac1d4e5b6a7f80911").
  - vm_compute. discriminate.
  - reflexivity.
  - reflexivity.
  - apply slug_unique_insert; [apply slug_unique_empty|reflexivity].
  - reflexivity.
  - reflexivity.
  - reflexivity.
Defined.

(** X8.  With the server up, the lookup of a well-formed slug that no
    stored event has answers 404, naming the normalised slug. *)
Theorem GET_not_found (raw : string) (w : World) :
  trim raw <> "" ->
  Route.isValidSlug (normalize raw) = true ->
  outage w = None -> connectable w = true ->
  (forall i e, events w !! i = Some e -> slug e <> normalize raw) ->
  fst (Route.GET raw w) = Ok (Route.NotFound (normalize raw)) /\
  Route.status (Route.NotFound (normalize raw)) = 404.
Proof.
  intros Hblank Hshape Hup Hcan Hnone. split; [|reflexivity].
  rewrite (GET_wellformed raw w Hblank Hshape).
  destruct (connectDB_up w Hup Hcan) as (w1 & -> & Ho & He & _).
  rewrite Ho, He. simpl.
  destruct (find_slug (events w) (normalize raw)) as [e'|] eqn:Hfind; [|reflexivity].
  destruct (find_slug_Some _ _ _ Hfind) as (j & Hj & Hs).
  now elim (Hnone j e' Hj).
Qed.

Lemma GET_not_found_witness :
  fst (Route.GET "react-summit" world_with_meetup) = Ok (Route.NotFound "react-summit").
Proof.
  apply (GET_not_found "react-summit" world_with_meetup); try reflexivity.
  - vm_compute. discriminate.
  - intros i e Hi.
    destruct (decide (i = "6905f39ac1d4e5b6a7f80911")) as [->|Hne].
    + vm_compute in Hi. injection Hi as <-. vm_compute. discriminate.
    + assert (Hev : events world_with_meetup
                    = <["6905f39ac1d4e5b6a7f80911" :=
                          EventSchema.to_write parses_nothing first_meetup sample_world]> ∅).
      { unfold world_with_meetup.
        rewrite (save_valid parses_nothing first_meetup sample_world eq_refl).
        rewrite write_accepted by (repeat split). reflexivity. }
      rewrite Hev, lookup_insert_ne, lookup_empty in Hi by congruence.
      discriminate.
Defined.

(** The answers of the route, case by case. *)
Lemma GET_cases (raw : string) (w : World) :
  Route.GET raw w = (Ok Route.MissingParameter, w) \/
  Route.GET raw w = (Ok Route.InvalidFormat, w) \/
  (Route.isValidSlug (normalize raw) = true /\
   exists w1,
     events w1 = events w /\ bookings w1 = bookings w /\
     (Route.GET raw w = (Ok (Route.NotFound (normalize raw)), w1) \/
      (exists t, Route.GET raw w = (Ok (Route.InternalError t), w1)) \/
      (exists i e, events w !! i = Some e /\ slug e = normalize raw /\
                   Route.GET raw w = (Ok (Route.Fetched e), w1)))).
Proof.
  destruct (String.eqb_spec (trim raw) "") as [Hblank|Hblank].
  { left. now apply GET_missing. }
  destruct (Route.isValidSlug (normalize raw)) eqn:Hshape.
  2: { right. left. now apply GET_malformed. }
  right. right. split; [reflexivity|].
  rewrite (GET_wellformed raw w Hblank Hshape).
  destruct (connectDB_collections w) as [He Hb].
  destruct (connectDB w) as [[[]|t] w1]; simpl in He, Hb.
  - destruct (outage w1) as [t|].
    + exists (with_call (Call_findOne_Event (normalize raw)) w1).
      split; [exact He|]. split; [exact Hb|]. right. left. eauto.
    + exists (with_call (Call_findOne_Event (normalize raw)) w1).
      split; [exact He|]. split; [exact Hb|].
      destruct (find_slug (events w1) (normalize raw)) as [e|] eqn:Hfind.
      * right. right. rewrite He in Hfind.
        destruct (find_slug_Some _ _ _ Hfind) as (i & Hi & Hs). eauto 6.
      * left. reflexivity.
  - exists w1. split; [exact He|]. split; [exact Hb|]. right. left. eauto.
Qed.

(** X9.  The route never throws: whatever the slug and the state of the
    server, it completes with a response whose status is 200, 400, 404
    or 500. *)
Theorem GET_always_responds (raw : string) (w : World) :
  exists r, fst (Route.GET raw w) = Ok r /\
            (Route.status r = 200 \/ Route.status r = 400 \/
             Route.status r = 404 \/ Route.status r = 500).
Proof.
  destruct (GET_cases raw w)
    as [->|[->|(_ & w1 & _ & _ & [->|[(t & ->)|(i & e & _ & _ & ->)]])]];
    eexists; (split; [reflexivity|]); simpl; auto.
Qed.

(** X10.  The route only reads: the events and the bookings are as they
    were, whatever the slug and the answer. *)
Theorem GET_reads_only (raw : string) (w : World) :
  events (snd (Route.GET raw w)) = events w /\
  bookings (snd (Route.GET raw w)) = bookings w.
Proof.
  destruct (GET_cases raw w)
    as [->|[->|(_ & w1 & He & Hb & [->|[(t & ->)|(i & e & _ & _ & ->)]])]];
    simpl; auto.
Qed.

(** X11.  A 200 answer carries a stored event whose slug is the
    normalised slug asked for, and that slug is well-formed; every other
    answer carries no event. *)
Theorem GET_answers_stored_event (raw : string) (w : World) (r : Route.ApiResponse) :
  fst (Route.GET raw w) = Ok r ->
  (Route.status r = 200 ->
   exists i e, Route.api_event r = Some e /\ events w !! i = Some e /\
               slug e = normalize raw /\ Route.isValidSlug (slug e) = true) /\
  (Route.status r <> 200 -> Route.api_event r = None).
Proof.
  destruct (GET_cases raw w)
    as [->|[->|(Hshape & w1 & _ & _ & [->|[(t & ->)|(i & e & Hi & Hs & ->)]])]];
    simpl; intros [= <-]; simpl; (split; [|try easy]); try discriminate.
  intros _. exists i, e. rewrite Hs. auto.
Qed.

Lemma GET_answers_stored_event_witness :
  exists i e,
    events world_with_meetup !! i = Some e /\ slug e = "tech-meetup".
Proof.
  set (e0 := EventSchema.to_write parses_nothing first_meetup sample_world).
  destruct (GET_answers_stored_event "tech-meetup" world_with_meetup (Route.Fetched e0))
    as [H200 _]; [reflexivity|].
  destruct (H200 eq_refl) as (i & e & _ & Hi & Hs & _).
  exists i, e. split; [exact Hi|exact Hs].
Defined.

(** X12.  A failure of the store is not reported as a missing event:
    when the server is down, the lookup of a well-formed slug answers
    500 with the message of the driver's error, or with the fallback
    text when what was thrown is not an [Error]. *)
Theorem GET_store_failure (raw : string) (w : World) (t : Thrown) :
  trim raw <> "" ->
  Route.isValidSlug (normalize raw) = true ->
  outage w = Some t -> connectable w = true ->
  fst (Route.GET raw w) = Ok (Route.InternalError t) /\
  Route.status (Route.InternalError t) = 500 /\
  Route.api_error (Route.InternalError t)
    = Some match t with
           | Thrown_Error e => message e
           | Thrown_other => "An unexpected error occurred"
           end.
Proof.
  intros Hblank Hshape Hout Hcan. split; [|split; reflexivity].
  rewrite (GET_wellformed raw w Hblank Hshape).
  pose proof (connectDB_outage w) as Ho.
  destruct (cached_conn w) eqn:Hconn.
  - rewrite (connectDB_cached w Hconn). now rewrite Hout.
  - rewrite (connectDB_uncached w Hconn).
    unfold connectable in Hcan. rewrite Hconn in Hcan. simpl in Hcan.
    replace (negb (cached_promise w) && negb (uri_set w)) with false
      by (destruct (cached_promise w), (uri_set w); simpl in *; congruence).
    now rewrite Hout.
Qed.

Lemma GET_store_failure_witness :
  fst (Route.GET "tech-meetup" down_world)
    = Ok (Route.InternalError
            (Thrown_Error (new_Error "connect ECONNREFUSED 127.0.0.1:27017"))).
Proof.
  apply (GET_store_failure "tech-meetup" down_world); try reflexivity.
  vm_compute. discriminate.
Defined.

(** ** event.model.ts: what the hook leaves in the document *)

Lemma preSave_assigns (Date_parse : string -> option Z) (this : Document IEvent) :
  let e := fields this in
  let e' := fst (EventSchema.preSave Date_parse this) in
  same_other_fields e e' /\
  (isModified this "title" = false -> slug e' = slug e) /\
  (isModified this "date" = false -> date e' = date e) /\
  (isModified this "time" = false -> time e' = time e).
Proof.
  unfold EventSchema.preSave, EventSchema.date_step, EventSchema.time_step,
    EventSchema.slug_step, same_other_fields.
  destruct (isModified this "title"), (isModified this "date"),
    (isModified this "time"); cbv zeta;
    repeat case_match; simplify_eq; simpl; repeat split; intros;
    try reflexivity; discriminate.
Qed.

(** X14.  The hook assigns [slug], [date] and [time] and nothing else;
    and each of the three is left alone when the path it is derived
    from ([title], [date], [time]) is not modified. *)
Theorem preSave_frame (Date_parse : string -> option Z) (this : Document IEvent) :
  let e := fields this in
  let e' := fst (EventSchema.preSave Date_parse this) in
  same_other_fields e e' /\
  (isModified this "title" = false -> slug e' = slug e) /\
  (isModified this "date" = false -> date e' = date e) /\
  (isModified this "time" = false -> time e' = time e).
Proof. apply preSave_assigns. Qed.

(** X15.  When the title is new or changed, the slug the hook leaves in
    the document is the one derived from the title; it is made of
    characters of [[a-z0-9_-]] only and has no two hyphens in a row. *)
Theorem derived_slug_shape (Date_parse : string -> option Z) (this : Document IEvent) :
  isModified this "title" = true ->
  let s := slug (fst (EventSchema.preSave Date_parse this)) in
  s = EventSchema.slugify (title (fields this)) /\
  all_chars is_slug_char s = true /\ single_hyphens s = true.
Proof.
  intros Hmod s. subst s. rewrite (preSave_slug Date_parse this Hmod).
  destruct (slugify_shape (title (fields this))) as (Hc & Hh & _). auto.
Qed.

Lemma derived_slug_shape_witness :
  slug (fst (EventSchema.preSave parses_nothing second_meetup)) = "tech-meetup".
Proof.
  destruct (derived_slug_shape parses_nothing second_meetup) as (Hs & _); [reflexivity|].
  rewrite Hs. reflexivity.
Defined.

Lemma remove_not_fixed (keep : ascii -> bool) (s : string) :
  all_chars keep s = true -> remove_not keep s = s.
Proof.
  induction s as [|c s IH]; simpl; [reflexivity|].
  rewrite andb_true_iff. intros [-> Hs]. now rewrite IH.
Qed.

Lemma replace_runs_none (cls : ascii -> bool) (r : string) (b : bool) (s : string) :
  all_chars (fun c => negb (cls c)) s = true -> replace_runs_from cls r b s = s.
Proof.
  revert b. induction s as [|c s IH]; intros b; simpl; [reflexivity|].
  rewrite andb_true_iff, negb_true_iff. intros [-> Hs]. now rewrite IH.
Qed.

Lemma is_hyphen_eq (c : ascii) : is_hyphen c = true -> c = "-"%char.
Proof. destruct c as [[] [] [] [] [] [] [] []]; vm_compute; congruence. Qed.

Lemma replace_runs_single_hyphens (b : bool) (s : string) :
  single_hyphens s = true ->
  (b = true -> starts_with_hyphen s = false) ->
  replace_runs_from is_hyphen "-" b s = s.
Proof.
  revert b. induction s as [|c s IH]; intros b Hs Hb; [reflexivity|].
  cbn [replace_runs_from].
  assert (Hs' : single_hyphens s = true).
  { simpl in Hs. destruct s; [reflexivity|]. now apply andb_true_iff in Hs. }
  destruct (is_hyphen c) eqn:Hc.
  - destruct b; [simpl in Hb; rewrite Hb in Hc by reflexivity; discriminate|].
    rewrite hyphen_append, (is_hyphen_eq c Hc). f_equal. apply IH; [exact Hs'|].
    intros _. simpl in Hs. destruct s as [|d s]; [reflexivity|].
    apply andb_true_iff in Hs. destruct Hs as [Hs _]. rewrite Hc in Hs. simpl in Hs.
    simpl. now apply negb_true_iff in Hs.
  - f_equal. apply IH; [exact Hs'|discriminate].
Qed.

Lemma slug_char_kept (c : ascii) :
  is_slug_char c = true -> is_word c || is_space c || is_hyphen c = true.
Proof. destruct c as [[] [] [] [] [] [] [] []]; vm_compute; congruence. Qed.

(** X16.  Deriving a slug is idempotent: the slug of a title is its own
    slug. *)
Theorem slugify_idempotent (title : string) :
  EventSchema.slugify (EventSchema.slugify title) = EventSchema.slugify title.
Proof.
  destruct (slugify_shape title) as (Hc & Hh & _).
  set (s := EventSchema.slugify title) in *.
  pose proof (slug_chars_no_space s Hc) as Hsp.
  unfold EventSchema.slugify at 1.
  rewrite (toLowerCase_fixed s Hc).
  rewrite remove_not_fixed by (apply (all_chars_impl is_slug_char); [apply slug_char_kept|exact Hc]).
  unfold replace_runs.
  rewrite (replace_runs_none is_space "-" false s Hsp).
  rewrite (replace_runs_single_hyphens false s Hh) by discriminate.
  now apply trim_fixed.
Qed.

(** ** event.model.ts: the normalised date and time *)

(** A property checked on every H:MM and HH:MM text holds of all of
    them. *)
Lemma times_enumeration (P : list ascii -> ascii -> ascii -> bool) :
  forallb (fun m1 => forallb (fun m2 => forallb (fun h1 =>
    P [h1] m1 m2 && forallb (fun h2 => P [h1; h2] m1 m2) decimal_digits)
    decimal_digits) decimal_digits) decimal_digits = true ->
  forall hs m1 m2,
    (length hs = 1 \/ length hs = 2)%nat ->
    Forall (fun c => is_digit c = true) hs ->
    is_digit m1 = true -> is_digit m2 = true ->
    P hs m1 m2 = true.
Proof.
  intros Hall hs m1 m2 Hlen Hhs Hm1 Hm2.
  pose proof (forallb_In _ _ m1 Hall (is_digit_decimal m1 Hm1)) as H1.
  pose proof (forallb_In _ _ m2 H1 (is_digit_decimal m2 Hm2)) as H2.
  destruct hs as [|h1 [|h2 [|h3 hs]]]; simpl in Hlen; try lia.
  - inversion Hhs as [|? ? Hh1 _]; subst.
    pose proof (forallb_In _ _ h1 H2 (is_digit_decimal h1 Hh1)) as H3.
    exact (proj1 (andb_prop _ _ H3)).
  - inversion Hhs as [|? ? Hh1 Hrest]; subst. inversion Hrest as [|? ? Hh2 _]; subst.
    pose proof (forallb_In _ _ h1 H2 (is_digit_decimal h1 Hh1)) as H3.
    exact (forallb_In _ _ h2 (proj2 (andb_prop _ _ H3)) (is_digit_decimal h2 Hh2)).
Qed.

Lemma padded_is_canonical_holds (hs : list ascii) (m1 m2 : ascii) :
  (length hs = 1 \/ length hs = 2)%nat ->
  Forall (fun c => is_digit c = true) hs ->
  is_digit m1 = true -> is_digit m2 = true ->
  padded_is_canonical hs m1 m2 = true.
Proof. apply times_enumeration. vm_compute. reflexivity. Qed.

Lemma is_colon_eq (c : ascii) : EventSchema.is_colon c = true -> c = ":"%char.
Proof. destruct c as [[] [] [] [] [] [] [] []]; vm_compute; congruence. Qed.

(** What the pattern [H:MM] or [HH:MM] of the hook matches. *)
Lemma timeParts_match_shape (s p1 p2 : string) :
  EventSchema.timeParts_match s = Some (p1, p2) ->
  exists hs m1 m2,
    s = time_text hs m1 m2 /\
    (length hs = 1 \/ length hs = 2)%nat /\
    Forall (fun c => is_digit c = true) hs /\
    is_digit m1 = true /\ is_digit m2 = true.
Proof.
  unfold EventSchema.timeParts_match.
  pose proof (String.string_of_list_ascii_of_string s) as Hs.
  destruct (String.list_ascii_of_string s) as [|a [|b [|c [|d [|e [|f l]]]]]];
    try discriminate.
  - destruct (is_digit a && EventSchema.is_colon b && is_digit c && is_digit d) eqn:H;
      [|discriminate].
    intros _. rewrite !andb_true_iff in H. destruct H as [[[Ha Hb] Hc] Hd].
    apply is_colon_eq in Hb. subst b.
    exists [a], c, d. split; [symmetry; exact Hs|]. repeat split; auto.
  - destruct (is_digit a && is_digit b && EventSchema.is_colon c && is_digit d
              && is_digit e) eqn:H; [|discriminate].
    intros _. rewrite !andb_true_iff in H. destruct H as [[[[Ha Hb] Hc] Hd] He].
    apply is_colon_eq in Hc. subst c.
    exists [a; b], d, e. split; [symmetry; exact Hs|]. repeat split; auto.
Qed.

Lemma time_step_canonical (this : Document IEvent) (e e' : IEvent) :
  isModified this "time" = true ->
  EventSchema.time_step this e = EventSchema.Continue e' ->
  EventSchema.timeRegex_test (time e') = true /\ date e' = date e.
Proof.
  intros Hmod. rewrite (time_step_outcome this e Hmod).
  destruct (time_outcome (time e)) as [|s|v] eqn:Hout; [| |discriminate].
  - intros [= <-]. split; [|reflexivity].
    unfold time_outcome in Hout.
    destruct (EventSchema.timeRegex_test (time e)); [reflexivity|].
    destruct (EventSchema.timeParts_match (time e)) as [[p1 p2]|]; [|discriminate].
    cbv zeta in Hout. destruct (_ || _); discriminate.
  - intros [= <-]. split; [|reflexivity]. simpl.
    assert (Hparts : exists p1 p2, EventSchema.timeParts_match (time e) = Some (p1, p2)).
    { unfold time_outcome in Hout.
      destruct (EventSchema.timeRegex_test (time e)); [discriminate|].
      destruct (EventSchema.timeParts_match (time e)) as [[p1 p2]|]; [eauto|discriminate]. }
    destruct Hparts as (p1 & p2 & Hparts).
    destruct (timeParts_match_shape _ _ _ Hparts) as (hs & m1 & m2 & Ht & Hlen & Hhs & Hm1 & Hm2).
    pose proof (padded_is_canonical_holds hs m1 m2 Hlen Hhs Hm1 Hm2) as Hcan.
    unfold padded_is_canonical in Hcan. rewrite <- Ht, Hout in Hcan. exact Hcan.
Qed.

Lemma date_step_canonical
    (Date_parse : string -> option Z) (this : Document IEvent) (e e' : IEvent) :
  isModified this "date" = true ->
  (forall t, Date_parse (date e) = Some t -> 0 <= UTCFullYear t <= 9999) ->
  EventSchema.date_step Date_parse this e = EventSchema.Continue e' ->
  EventSchema.dateRegex_test (date e') = true.
Proof.
  intros Hmod Hyear Hstep.
  destruct (EventSchema.dateRegex_test (date e)) eqn:Hre.
  - unfold EventSchema.date_step in Hstep. rewrite Hmod, Hre in Hstep.
    simpl in Hstep. now injection Hstep as <-.
  - destruct (Date_parse (date e)) as [t|] eqn:Hparse.
    + pose proof (parsed_date_is_reformatted Date_parse this e t Hmod Hre Hparse) as H.
      specialize (Hyear t eq_refl). unfold UTCFullYear in Hyear.
      destruct (civil_from_days (Day t)) as [[y m] d]. simpl in Hyear.
      destruct (H Hyear) as (e'' & Hstep' & _ & Hcan). congruence.
    + unfold EventSchema.date_step in Hstep. rewrite Hmod, Hre, Hparse in Hstep.
      discriminate.
Qed.

(** X18.  When the hook returns without an error, a date that is new or
    changed is of the shape NNNN-NN-NN, as long as the engine's parse
    of it, where one is needed, falls in the years 0 to 9999; and a
    time that is new or changed is of the canonical 24-hour pattern
    HH:MM. *)
Theorem preSave_canonical (Date_parse : string -> option Z) (this : Document IEvent) :
  snd (EventSchema.preSave Date_parse this) = None ->
  (forall t, Date_parse (date (fields this)) = Some t -> 0 <= UTCFullYear t <= 9999) ->
  let e' := fst (EventSchema.preSave Date_parse this) in
  (isModified this "date" = true -> EventSchema.dateRegex_test (date e') = true) /\
  (isModified this "time" = true -> EventSchema.timeRegex_test (time e') = true).
Proof.
  intros Hret Hyear e'. subst e'. revert Hret. unfold EventSchema.preSave.
  set (e0 := EventSchema.slug_step this (fields this)).
  assert (Hd0 : date e0 = date (fields this)) by apply slug_step_date.
  destruct (EventSchema.date_step Date_parse this e0) as [e1|e1 v] eqn:Hdate;
    [|discriminate].
  destruct (EventSchema.time_step this e1) as [e2|e2 v] eqn:Htime; [|discriminate].
  intros _. simpl.
  assert (Hd2 : date e2 = date e1).
  { destruct (time_step_cases this e1) as [(x & Hx & _ & _ & Hd)|(v & Hx & _)];
      rewrite Htime in Hx; [now injection Hx as <-|discriminate]. }
  split.
  - intros Hmod. rewrite Hd2.
    apply (date_step_canonical Date_parse this e0 e1 Hmod); [|exact Hdate].
    now rewrite Hd0.
  - intros Hmod. now apply (time_step_canonical this e1 e2 Hmod).
Qed.

Lemma preSave_canonical_witness :
  let this := sample_event "6905f39ac1d4e5b6a7f80911" "Tech Meetup"
                "15 January 2025 10:00 UTC" "7:05" in
  date (fst (EventSchema.preSave parses_one this)) = "2025-01-15" /\
  EventSchema.dateRegex_test (date (fst (EventSchema.preSave parses_one this))) = true /\
  EventSchema.timeRegex_test (time (fst (EventSchema.preSave parses_one this))) = true.
Proof.
  intros this.
  destruct (preSave_canonical parses_one this) as [Hd Ht].
  - reflexivity.
  - intros t Ht. vm_compute in Ht. injection Ht as <-. vm_compute. split; discriminate.
  - split; [reflexivity|]. split; [apply Hd|apply Ht]; reflexivity.
Defined.

(** X19.  A date that is new or changed, not of the canonical shape, and
    parsed by the engine to a time value in the years 0 to 9999 is
    replaced by the UTC calendar date of that time value, written
    YYYY-MM-DD. *)
Theorem preSave_reformats_date
    (Date_parse : string -> option Z) (this : Document IEvent) (t : Z) :
  isModified this "date" = true ->
  EventSchema.dateRegex_test (date (fields this)) = false ->
  Date_parse (date (fields this)) = Some t ->
  0 <= UTCFullYear t <= 9999 ->
  let '(y, m, d) := civil_from_days (Day t) in
  date (fst (EventSchema.preSave Date_parse this))
    = pad 4 y +:+ "-" +:+ pad 2 m +:+ "-" +:+ pad 2 d.
Proof.
  intros Hmod Hre Hparse Hyear.
  set (e0 := EventSchema.slug_step this (fields this)).
  assert (Hd0 : date e0 = date (fields this)) by apply slug_step_date.
  pose proof (parsed_date_is_reformatted Date_parse this e0 t Hmod) as H.
  rewrite Hd0 in H. specialize (H Hre Hparse).
  unfold UTCFullYear in Hyear.
  destruct (civil_from_days (Day t)) as [[y m] d]. simpl in Hyear.
  destruct (H Hyear) as (e1 & Hstep & Hdate & _).
  unfold EventSchema.preSave. fold e0. rewrite Hstep.
  destruct (time_step_cases this e1) as [(e2 & -> & _ & _ & Hd)|(v & -> & _)]; simpl;
    congruence.
Qed.

Lemma preSave_reformats_date_witness :
  date (fst (EventSchema.preSave parses_one
               (sample_event "6905f39ac1d4e5b6a7f80911" "Tech Meetup"
                  "15 January 2025 10:00 UTC" "18:30")))
    = "2025-01-15".
Proof.
  pose proof (preSave_reformats_date parses_one
                (sample_event "6905f39ac1d4e5b6a7f80911" "Tech Meetup"
                   "15 January 2025 10:00 UTC" "18:30") 1736935200000) as H.
  vm_compute (civil_from_days _) in H. rewrite H; try reflexivity.
  vm_compute. split; discriminate.
Defined.

(** ** Saving an event, and finding it again *)

Lemma write_result (isNew : bool) (e e' : IEvent) (w : World) :
  fst (EventSchema.write isNew e w) = Ok e' ->
  e' = e /\ EventSchema.accepted isNew e w.
Proof.
  unfold EventSchema.write, bind, EventSchema.accepted.
  destruct (outage w) as [t|] eqn:Hout.
  - rewrite (driver_down _ _ _ t Hout). discriminate.
  - rewrite driver_up by assumption. cbn [id with_call events]. cbv zeta.
    destruct (bool_decide (is_Some (events w !! ev_id e))), isNew; simpl;
      try discriminate;
      destruct (EventSchema.slug_taken (events w) e); simpl; try discriminate;
      intros [= <-]; auto.
Qed.

Lemma validate_passed (e : IEvent) :
  EventSchema.validate e = None ->
  (title e <> "" /\ description e <> "" /\ overview e <> "" /\ image e <> "" /\
   venue e <> "" /\ location e <> "" /\ date e <> "" /\ time e <> "" /\
   audience e <> "" /\ organizer e <> "") /\
  mode e ∈ EventSchema.mode_values /\ agenda e <> [] /\ tags e <> [].
Proof.
  unfold EventSchema.validate. destruct (EventSchema.failures e) eqn:Hf; [|discriminate].
  intros _. unfold EventSchema.failures, required in Hf.
  repeat match type of Hf with
         | _ ++ _ = [] => apply app_eq_nil in Hf; destruct Hf as [? Hf]
         end.
  assert (Hmode : mode e ∈ EventSchema.mode_values).
  { match goal with
    | H : (if String.eqb (mode e) "" then _ else _) = [] |- _ =>
        destruct (String.eqb (mode e) ""); [discriminate H|];
        destruct (bool_decide (mode e ∈ EventSchema.mode_values)) eqn:Hm;
        [|discriminate H]
    end.
    now apply bool_decide_eq_true in Hm. }
  repeat match goal with
         | H : (if String.eqb ?x "" then _ else []) = [] |- _ =>
             destruct (String.eqb_spec x ""); [discriminate H|clear H]
         end.
  repeat split; try assumption.
  - match goal with
    | H : (if 0 <? Z.of_nat (length (agenda e)) then _ else _) = [] |- _ =>
        destruct (agenda e); [discriminate H|easy]
    end.
  - destruct (tags e); [discriminate Hf|easy].
Qed.

(** X20.  Only valid events are stored: when a save succeeds, the stored
    record has a non-empty title, description, overview, image, venue,
    location, audience and organizer, a mode among online, offline and
    hybrid, and at least one agenda item and one tag. *)
Theorem stored_event_is_valid
    (Date_parse : string -> option Z) (this : Document IEvent) (w : World)
    (stored : IEvent) :
  fst (EventSchema.save Date_parse this w) = Ok stored ->
  events (snd (EventSchema.save Date_parse this w)) !! ev_id stored = Some stored /\
  (title stored <> "" /\ description stored <> "" /\ overview stored <> "" /\
   image stored <> "" /\ venue stored <> "" /\ location stored <> "" /\
   audience stored <> "" /\ organizer stored <> "") /\
  mode stored ∈ EventSchema.mode_values /\
  agenda stored <> [] /\ tags stored <> [].
Proof.
  intros Hok.
  destruct (EventSchema.validate (fields this)) eqn:Hval.
  { unfold EventSchema.save in Hok. rewrite Hval in Hok. discriminate. }
  rewrite (save_valid Date_parse this w Hval) in *.
  destruct (write_result _ _ _ _ Hok) as [-> Hacc].
  rewrite write_accepted by exact Hacc. simpl.
  split; [apply lookup_insert_eq|].
  destruct (validate_passed _ Hval)
    as ((Ht & Hde & Ho & Hi & Hv & Hl & _ & _ & Ha & Hor) & Hm & Hag & Htg).
  destruct (preSave_assigns Date_parse this) as (Hsame & _).
  unfold same_other_fields in Hsame.
  destruct Hsame as (_ & E1 & E2 & E3 & E4 & E5 & E6 & E7 & E8 & E9 & E10 & E11 & _).
  unfold EventSchema.to_write. simpl.
  rewrite E1, E2, E3, E4, E5, E6, E7, E8, E9, E10, E11. auto 12.
Qed.

Lemma stored_event_is_valid_witness :
  mode (EventSchema.to_write parses_nothing first_meetup sample_world)
    ∈ EventSchema.mode_values.
Proof.
  apply (stored_event_is_valid parses_nothing first_meetup sample_world).
  reflexivity.
Defined.

Lemma wellformed_slug_normal (s : string) :
  all_chars is_slug_char s = true -> Route.isValidSlug s = true ->
  trim s <> "" /\ normalize s = s.
Proof.
  intros Hc Hv.
  assert (Ht : trim s = s) by (apply trim_fixed, slug_chars_no_space, Hc).
  split.
  - rewrite Ht. intros ->. discriminate.
  - unfold normalize. now rewrite (toLowerCase_fixed s Hc).
Qed.

(** X22.  An event that was saved is found by its slug: after the save
    of a valid event whose title derives a well-formed slug, the lookup
    of that slug answers 200 with the record that was stored. *)
Theorem saved_event_is_found
    (Date_parse : string -> option Z) (this : Document IEvent) (w : World) :
  EventSchema.validate (fields this) = None ->
  EventSchema.accepted (isNew this) (fst (EventSchema.preSave Date_parse this)) w ->
  isModified this "title" = true ->
  EventSchema.slug_unique (events w) ->
  connectable w = true ->
  Route.isValidSlug (EventSchema.slugify (title (fields this))) = true ->
  fst (Route.GET (EventSchema.slugify (title (fields this)))
         (snd (EventSchema.save Date_parse this w)))
    = Ok (Route.Fetched (EventSchema.to_write Date_parse this w)).
Proof.
  intros Hval Hacc Hmod Huniq Hcan Hshape.
  set (s := EventSchema.slugify (title (fields this))) in *.
  destruct (slugify_shape (title (fields this))) as (Hc & _ & _). fold s in Hc.
  destruct (wellformed_slug_normal s Hc Hshape) as [Hblank Hnorm].
  destruct (save_completes Date_parse this w Hval Hacc) as [_ Hstored].
  assert (Hw : snd (EventSchema.save Date_parse this w)
               = with_events (<[ev_id (EventSchema.to_write Date_parse this w) :=
                                  EventSchema.to_write Date_parse this w]> (events w))
                   (with_call (Call_write_Event
                                 (ev_id (EventSchema.to_write Date_parse this w))) w)).
  { rewrite (save_valid Date_parse this w Hval).
    now rewrite write_accepted by (apply accepted_stamp, Hacc). }
  apply (GET_finds s _ (ev_id (fields this)) (EventSchema.to_write Date_parse this w)).
  - exact Hblank.
  - rewrite Hw. apply Hacc.
  - rewrite Hw. exact Hcan.
  - rewrite Hw. unfold with_events. cbn [events].
    apply (slug_unique_insert (events w) (EventSchema.to_write Date_parse this w));
      [exact Huniq|].
    exact (proj2 (proj2 (Hacc : EventSchema.accepted (isNew this)
                                  (EventSchema.to_write Date_parse this w) w))).
  - exact Hstored.
  - rewrite Hnorm. apply (preSave_slug Date_parse this Hmod).
  - now rewrite Hnorm.
Qed.

Lemma saved_event_is_found_witness :
  fst (Route.GET "tech-meetup" world_with_meetup)
    = Ok (Route.Fetched (EventSchema.to_write parses_nothing first_meetup sample_world)).
Proof.
  apply (saved_event_is_found parses_nothing first_meetup sample_world);
    try reflexivity.
  - repeat split.
  - apply slug_unique_empty.
Defined.

(** ** booking.model.ts: the save of a booking *)

Lemma Booking_write_cases (isNew : bool) (b : IBooking) (w : World) :
  (booking_accepted isNew b w /\
   BookingSchema.write isNew b w =
     (Ok b, with_bookings (<[bk_id b := b]> (bookings w))
              (with_call (Call_write_Booking (bk_id b)) w))) \/
  (exists t, BookingSchema.write isNew b w
             = (Throw t, with_call (Call_write_Booking (bk_id b)) w)).
Proof.
  unfold BookingSchema.write, bind, booking_accepted.
  destruct (outage w) as [t|] eqn:Hout.
  - rewrite (driver_down _ _ _ t Hout). right. eauto.
  - rewrite driver_up by assumption. cbn [id with_call bookings]. cbv zeta.
    destruct (bool_decide (is_Some (bookings w !! bk_id b))), isNew; simpl;
      try (right; eauto; fail); left; auto.
Qed.

Lemma Booking_write_accepted (isNew : bool) (b : IBooking) (w : World) :
  booking_accepted isNew b w ->
  BookingSchema.write isNew b w =
    (Ok b, with_bookings (<[bk_id b := b]> (bookings w))
             (with_call (Call_write_Booking (bk_id b)) w)).
Proof.
  intros [Hup Hid]. unfold BookingSchema.write, bind.
  rewrite driver_up by assumption. cbn [id with_call bookings]. cbv zeta.
  rewrite Hid. now destruct isNew.
Qed.

(** The probe of a stored, unmodified document, case by case. *)
Lemma Booking_probe_cases (b : IBooking) (w : World) :
  BookingSchema.probe b w =
    match outage w with
    | Some t => (Throw t, with_call (Call_exists_Booking (bk_id b)) w)
    | None =>
        (if bool_decide (is_Some (bookings w !! bk_id b)) then Ok b
         else Throw (Thrown_Error (DocumentNotFound "Booking")),
         with_call (Call_exists_Booking (bk_id b)) w)
    end.
Proof.
  unfold BookingSchema.probe, bind.
  destruct (outage w) as [t|] eqn:Hout.
  - now rewrite (driver_down _ _ _ t Hout).
  - rewrite driver_up by assumption. cbn [id with_call bookings].
    now destruct (bool_decide (is_Some (bookings w !! bk_id b))).
Qed.

(** The hook, case by case. *)
Lemma Booking_preSave_cases (this : Document IBooking) (w : World) :
  let id := eventId (fields this) in
  BookingSchema.preSave this w =
    if isModified this "eventId" then
      match outage w with
      | Some t => (Ok (Some (Error_or (new_Error "Error validating event") t)),
                   with_call (Call_exists_Event id) w)
      | None =>
          (Ok (if bool_decide (is_Some (events w !! id)) then None
               else Some (BookingSchema.DanglingReference id)),
           with_call (Call_exists_Event id) w)
      end
    else (Ok None, w).
Proof.
  intros id. unfold BookingSchema.preSave.
  destruct (isModified this "eventId"); [|reflexivity].
  unfold try_catch, bind, Event_exists.
  destruct (outage w) as [t|] eqn:Hout.
  - now rewrite (driver_down _ _ _ t Hout).
  - rewrite driver_up by assumption. cbn [with_call events]. fold id.
    destruct (events w !! id); reflexivity.
Qed.

Lemma isModified_cast_document (this : Document IBooking) (path : string) :
  isModified (BookingSchema.cast_document this) path = isModified this path.
Proof. reflexivity. Qed.

Lemma isModified_has_changes (this : Document IBooking) (path : string) :
  isModified this path = true -> BookingSchema.has_changes this = true.
Proof.
  unfold isModified, BookingSchema.has_changes. intros H.
  apply bool_decide_eq_true in H. apply orb_true_iff. right.
  apply negb_true_iff, bool_decide_eq_false. intros Hnil. rewrite Hnil in H.
  now apply not_elem_of_nil in H.
Qed.

Lemma booking_to_write_fields (this : Document IBooking) (w : World) :
  bk_id (booking_to_write this w) = bk_id (fields this) /\
  eventId (booking_to_write this w) = toLowerCase (eventId (fields this)) /\
  email (booking_to_write this w) = trim (toLowerCase (email (fields this))).
Proof.
  unfold booking_to_write. now destruct (BookingSchema.has_changes this).
Qed.

(** X24.  When the existence check itself fails, the save fails with the
    error of the driver (or with "Error validating event" when what was
    thrown is not an [Error]), and no write is attempted: the only call
    made is the existence query for the cast [eventId]. *)
Theorem booking_check_failure (this : Document IBooking) (w : World) (t : Thrown) :
  BookingSchema.validate (fields this) = None ->
  isModified this "eventId" = true ->
  outage w = Some t ->
  BookingSchema.save this w =
    (Throw (Thrown_Error (Error_or (new_Error "Error validating event") t)),
     with_call (Call_exists_Event (eventId (BookingSchema.cast (fields this)))) w).
Proof.
  intros Hval Hmod Hout. unfold BookingSchema.save. rewrite Hval.
  unfold bind. rewrite Booking_preSave_cases, isModified_cast_document, Hmod, Hout.
  reflexivity.
Qed.

Lemma booking_check_failure_witness :
  fst (BookingSchema.save sample_booking down_world)
    = Throw (Thrown_Error (new_Error "connect ECONNREFUSED 127.0.0.1:27017")) /\
  bookings (snd (BookingSchema.save sample_booking down_world)) = ∅.
Proof.
  rewrite (booking_check_failure sample_booking down_world
             (Thrown_Error (new_Error "connect ECONNREFUSED 127.0.0.1:27017")));
    try reflexivity.
  split; reflexivity.
Defined.

(** X25.  The check is made only for an [eventId] that is new or
    changed.  The save of a valid booking whose [eventId] is not
    modified, some other path of it being, asks the store for nothing
    but the write and succeeds whether or not the event is still there;
    and when nothing at all is modified of a stored booking, no write
    is made either: the store is only asked whether the booking is
    there, and the collection and the document are left as they are. *)
Theorem booking_unmodified_event_is_not_checked (this : Document IBooking) (w : World) :
  BookingSchema.validate (fields this) = None ->
  isModified this "eventId" = false ->
  (BookingSchema.has_changes this = true ->
   booking_accepted (isNew this) (booking_to_write this w) w ->
   fst (BookingSchema.save this w) = Ok (booking_to_write this w) /\
   calls (snd (BookingSchema.save this w))
     = Call_write_Booking (bk_id (fields this)) :: calls w /\
   bookings (snd (BookingSchema.save this w)) !! bk_id (fields this)
     = Some (booking_to_write this w)) /\
  (BookingSchema.has_changes this = false ->
   outage w = None ->
   is_Some (bookings w !! bk_id (fields this)) ->
   BookingSchema.save this w =
     (Ok (BookingSchema.cast (fields this)),
      with_call (Call_exists_Booking (bk_id (fields this))) w)).
Proof.
  intros Hval Hmod. unfold BookingSchema.save. rewrite Hval.
  unfold bind. rewrite Booking_preSave_cases, isModified_cast_document, Hmod.
  split.
  - intros Hch Hacc. rewrite Hch. unfold get_world.
    unfold booking_to_write in *. rewrite Hch in *.
    rewrite Booking_write_accepted by exact Hacc. simpl.
    split; [reflexivity|]. split; [reflexivity|]. apply lookup_insert_eq.
  - intros Hch Hup Hstored. rewrite Hch, Booking_probe_cases, Hup.
    cbn [bk_id BookingSchema.cast].
    now rewrite bool_decide_eq_true_2 by exact Hstored.
Qed.

Lemma booking_unmodified_event_is_not_checked_witness :
  events world_without_event !! "6905f39ac1d4e5b6a7f80911" = None /\
  email <$> (bookings (snd (BookingSchema.save email_change world_without_event))
               !! "6905f3a2c1d4e5b6a7f80912") = Some "ada.l@example.com".
Proof.
  split; [reflexivity|].
  destruct (booking_unmodified_event_is_not_checked email_change world_without_event
              eq_refl eq_refl) as [Hwrite _].
  destruct (Hwrite eq_refl (conj eq_refl eq_refl)) as (_ & _ & Hstored).
  change (bk_id (fields email_change)) with "6905f3a2c1d4e5b6a7f80912" in Hstored.
  rewrite Hstored. reflexivity.
Defined.

(** X26.  A valid booking for a stored event is saved and can be read
    back: the save answers the document with the [eventId] as the
    ObjectId prints it and the email lowercased and trimmed, the
    collection holds a booking under its [_id], which is that document
    whenever a write is made (when the booking is stored and nothing of
    it is modified, the collection is left as it is), and the events
    are as they were. *)
Theorem booking_is_stored (this : Document IBooking) (w : World) (e : IEvent) :
  BookingSchema.validate (fields this) = None ->
  events w !! eventId (BookingSchema.cast (fields this)) = Some e ->
  booking_accepted (isNew this) (booking_to_write this w) w ->
  let w' := snd (BookingSchema.save this w) in
  fst (BookingSchema.save this w) = Ok (booking_to_write this w) /\
  is_Some (bookings w' !! bk_id (fields this)) /\
  (BookingSchema.has_changes this = true ->
   bookings w' !! bk_id (fields this) = Some (booking_to_write this w)) /\
  (BookingSchema.has_changes this = false -> bookings w' = bookings w) /\
  eventId (booking_to_write this w) = toLowerCase (eventId (fields this)) /\
  email (booking_to_write this w) = trim (toLowerCase (email (fields this))) /\
  events w' = events w.
Proof.
  intros Hval Hev Hacc w'. subst w'.
  destruct (booking_to_write_fields this w) as (Hid & Heid & Hemail).
  unfold BookingSchema.save. rewrite Hval.
  unfold bind. rewrite Booking_preSave_cases, isModified_cast_document.
  destruct Hacc as [Hup Hstored]. rewrite Hup.
  cbn [fields BookingSchema.cast_document]. rewrite Hev.
  assert (Hrest : forall w0, outage w0 = None -> bookings w0 = bookings w ->
            events w0 = events w -> now w0 = now w ->
            let r := (if BookingSchema.has_changes this
                      then w1 <- get_world ;;
                           BookingSchema.write (isNew this)
                             (BookingSchema.stamp (isNew this) (now w1)
                                (BookingSchema.cast (fields this)))
                      else BookingSchema.probe (BookingSchema.cast (fields this))) w0 in
            fst r = Ok (booking_to_write this w) /\
            is_Some (bookings (snd r) !! bk_id (fields this)) /\
            (BookingSchema.has_changes this = true ->
             bookings (snd r) !! bk_id (fields this) = Some (booking_to_write this w)) /\
            (BookingSchema.has_changes this = false -> bookings (snd r) = bookings w) /\
            events (snd r) = events w).
  { intros w0 Hup0 Hb0 He0 Hn0 r. subst r.
    unfold booking_to_write in *.
    destruct (BookingSchema.has_changes this) eqn:Hch.
    - unfold bind, get_world. rewrite Hn0.
      rewrite Booking_write_accepted
        by (split; [exact Hup0|rewrite Hb0; exact Hstored]).
      cbn [fst snd with_bookings with_call bookings events bk_id
           BookingSchema.stamp BookingSchema.set_timestamps BookingSchema.cast].
      rewrite lookup_insert_eq.
      split; [reflexivity|]. split; [eauto|].
      split; [reflexivity|]. split; [discriminate|exact He0].
    - rewrite Booking_probe_cases, Hup0, Hb0.
      destruct (isNew this) eqn:Hnew; [unfold BookingSchema.has_changes in Hch;
                                        rewrite Hnew in Hch; discriminate|].
      cbn [negb bk_id BookingSchema.cast] in Hstored.
      cbn [bk_id BookingSchema.cast]. rewrite Hstored.
      cbn [fst snd with_call bookings events]. rewrite Hb0.
      split; [reflexivity|].
      split; [now apply bool_decide_eq_true in Hstored|].
      split; [discriminate|]. split; [reflexivity|exact He0]. }
  destruct (isModified this "eventId"); simpl.
  - destruct (Hrest (with_call (Call_exists_Event
                                  (eventId (BookingSchema.cast (fields this)))) w)
                Hup eq_refl eq_refl eq_refl) as (H1 & H2 & H3 & H4 & H5).
    repeat split; assumption.
  - destruct (Hrest w Hup eq_refl eq_refl eq_refl) as (H1 & H2 & H3 & H4 & H5).
    repeat split; assumption.
Qed.

Lemma booking_is_stored_witness :
  bookings world_with_booking !! "6905f3a2c1d4e5b6a7f80912"
    = Some (booking_to_write meetup_booking world_with_meetup) /\
  events world_with_booking = events world_with_meetup.
Proof.
  destruct (booking_is_stored meetup_booking world_with_meetup
              (EventSchema.to_write parses_nothing first_meetup sample_world)
              eq_refl eq_refl (conj eq_refl eq_refl))
    as (_ & _ & Hstored & _ & _ & _ & Hevents).
  split; [exact (Hstored eq_refl)|exact Hevents].
Defined.

(** The save of a booking, case by case. *)
Lemma Booking_save_cases (this : Document IBooking) (w : World) :
  (exists t, fst (BookingSchema.save this w) = Throw t /\
             bookings (snd (BookingSchema.save this w)) = bookings w /\
             events (snd (BookingSchema.save this w)) = events w) \/
  (fst (BookingSchema.save this w) = Ok (booking_to_write this w) /\
   BookingSchema.validate (fields this) = None /\
   (isModified this "eventId" = true ->
    is_Some (events w !! eventId (BookingSchema.cast (fields this)))) /\
   (BookingSchema.has_changes this = true ->
    bookings (snd (BookingSchema.save this w))
      = <[bk_id (fields this) := booking_to_write this w]> (bookings w)) /\
   (BookingSchema.has_changes this = false ->
    bookings (snd (BookingSchema.save this w)) = bookings w) /\
   events (snd (BookingSchema.save this w)) = events w).
Proof.
  unfold BookingSchema.save.
  destruct (BookingSchema.validate (fields this)) as [err|] eqn:Hval.
  { left. eexists. simpl. eauto. }
  unfold bind. rewrite Booking_preSave_cases, isModified_cast_document.
  cbn [fields BookingSchema.cast_document].
  assert (Hrest : forall w0, now w0 = now w -> bookings w0 = bookings w ->
                    events w0 = events w ->
            let r := (if BookingSchema.has_changes this
                      then w1 <- get_world ;;
                           BookingSchema.write (isNew this)
                             (BookingSchema.stamp (isNew this) (now w1)
                                (BookingSchema.cast (fields this)))
                      else BookingSchema.probe (BookingSchema.cast (fields this))) w0 in
            (exists t, fst r = Throw t /\ bookings (snd r) = bookings w /\
                       events (snd r) = events w) \/
            (fst r = Ok (booking_to_write this w) /\
             (BookingSchema.has_changes this = true ->
              bookings (snd r)
                = <[bk_id (fields this) := booking_to_write this w]> (bookings w)) /\
             (BookingSchema.has_changes this = false -> bookings (snd r) = bookings w) /\
             events (snd r) = events w)).
  { intros w0 Hn Hb He r. subst r. unfold booking_to_write.
    destruct (BookingSchema.has_changes this) eqn:Hch.
    - unfold bind, get_world. rewrite Hn.
      destruct (Booking_write_cases (isNew this)
                  (BookingSchema.stamp (isNew this) (now w)
                     (BookingSchema.cast (fields this))) w0)
        as [[_ ->]|[t ->]]; simpl.
      + right. rewrite Hb, He. repeat split; auto. discriminate.
      + left. eauto.
    - rewrite Booking_probe_cases.
      destruct (outage w0); [left; eexists; simpl; eauto|].
      destruct (bool_decide _); simpl.
      + right. repeat split; auto. discriminate.
      + left. eexists. simpl. eauto. }
  destruct (isModified this "eventId") eqn:Hmod.
  - destruct (outage w) as [t|]; [left; eexists; simpl; eauto|].
    destruct (events w !! eventId (BookingSchema.cast (fields this))) as [e|] eqn:Hev;
      simpl; [|left; eexists; simpl; eauto].
    destruct (Hrest (with_call (Call_exists_Event
                                  (eventId (BookingSchema.cast (fields this)))) w)
                eq_refl eq_refl eq_refl) as [H|(H1 & H2 & H3 & H4)]; [left; exact H|].
    right. repeat split; eauto.
  - destruct (Hrest w eq_refl eq_refl eq_refl) as [H|(H1 & H2 & H3 & H4)];
      [left; exact H|].
    right. repeat split; auto. discriminate.
Qed.

(** X27.  No booking is written for an event that is not there: when
    the save of a booking with a new or changed [eventId] succeeds, the
    event it names is in the store, the candidate passed the field
    validators, and the collection holds the booking under its [_id]. *)
Theorem booking_written_only_for_stored_event
    (this : Document IBooking) (w : World) (b : IBooking) :
  fst (BookingSchema.save this w) = Ok b ->
  isModified this "eventId" = true ->
  is_Some (events w !! eventId b) /\
  BookingSchema.emailRegex_test (email b) = true /\
  bookings (snd (BookingSchema.save this w)) !! bk_id b = Some b.
Proof.
  intros Hok Hmod.
  destruct (Booking_save_cases this w)
    as [(t & Ht & _)|(Hb & Hval & Hev & Hbk & _ & _)]; [congruence|].
  rewrite Hb in Hok. injection Hok as <-.
  destruct (booking_to_write_fields this w) as (Hid & Heid & Hemail).
  split; [rewrite Heid; exact (Hev Hmod)|]. split.
  - rewrite Hemail.
    unfold BookingSchema.validate, BookingSchema.failures in Hval.
    destruct (String.eqb (eventId (fields this)) ""); [discriminate|].
    destruct (BookingSchema.isObjectIdHex (eventId (fields this))); [|discriminate].
    unfold BookingSchema.email_setters in Hval. simpl in Hval.
    destruct (String.eqb (trim (toLowerCase (email (fields this)))) ""); [discriminate|].
    destruct (BookingSchema.emailRegex_test (trim (toLowerCase (email (fields this)))));
      [reflexivity|discriminate].
  - rewrite (Hbk (isModified_has_changes this "eventId" Hmod)), Hid.
    apply lookup_insert_eq.
Qed.

Lemma booking_written_only_for_stored_event_witness :
  is_Some (events world_with_meetup !! "6905f39ac1d4e5b6a7f80911").
Proof.
  apply (booking_written_only_for_stored_event meetup_booking world_with_meetup
           (booking_to_write meetup_booking world_with_meetup) eq_refl eq_refl).
Defined.

(** X28.  A save that fails writes nothing, and no save of a booking
    touches the events: on a throw the bookings are as they were, and in
    every case the events are. *)
Theorem booking_failure_writes_nothing (this : Document IBooking) (w : World) :
  events (snd (BookingSchema.save this w)) = events w /\
  forall t, fst (BookingSchema.save this w) = Throw t ->
            bookings (snd (BookingSchema.save this w)) = bookings w.
Proof.
  destruct (Booking_save_cases this w)
    as [(t & Ht & Hb & He)|(Hok & _ & _ & _ & _ & He)].
  - split; [exact He|]. intros _ _. exact Hb.
  - split; [exact He|]. intros t Ht. congruence.
Qed.

Lemma booking_failure_writes_nothing_witness :
  bookings (snd (BookingSchema.save sample_booking down_world)) = bookings down_world.
Proof.
  destruct (booking_failure_writes_nothing sample_booking down_world) as [_ H].
  apply (H (Thrown_Error (new_Error "connect ECONNREFUSED 127.0.0.1:27017"))).
  reflexivity.
Defined.

(** ** booking.model.ts: the email validator *)

Lemma is_dot_eq (c : ascii) : BookingSchema.is_dot c = true -> c = "."%char.
Proof. destruct c as [[] [] [] [] [] [] [] []]; vm_compute; congruence. Qed.

Lemma is_at_eq (c : ascii) : BookingSchema.is_at c = true -> c = "@"%char.
Proof. destruct c as [[] [] [] [] [] [] [] []]; vm_compute; congruence. Qed.

Lemma span_email_chars_spec (l : list ascii) :
  l = fst (BookingSchema.span_email_chars l) ++ snd (BookingSchema.span_email_chars l) /\
  forallb BookingSchema.is_email_char (fst (BookingSchema.span_email_chars l)) = true.
Proof.
  induction l as [|c l [IH1 IH2]]; simpl; [easy|].
  destruct (BookingSchema.is_email_char c) eqn:Hc; [|easy].
  destruct (BookingSchema.span_email_chars l) as [a r]. simpl in *.
  rewrite Hc, IH2. split; [congruence|reflexivity].
Qed.

Lemma span_email_chars_app (a r : list ascii) (c : ascii) :
  forallb BookingSchema.is_email_char a = true ->
  BookingSchema.is_email_char c = false ->
  BookingSchema.span_email_chars (a ++ c :: r) = (a, c :: r).
Proof.
  intros Ha Hc. induction a as [|x a IH]; simpl.
  - now rewrite Hc.
  - simpl in Ha. apply andb_true_iff in Ha. destruct Ha as [Hx Ha].
    now rewrite Hx, (IH Ha).
Qed.

Lemma inner_dot_spec (rest : list ascii) :
  existsb BookingSchema.is_dot (removelast (tail rest)) = true <->
  exists b c, rest = b ++ "."%char :: c /\ b <> [] /\ c <> [].
Proof.
  split.
  - intros H. apply existsb_exists in H. destruct H as (d & Hin & Hd).
    apply is_dot_eq in Hd. subst d.
    destruct rest as [|x t]; [contradiction|]. simpl in Hin.
    assert (Ht : t <> []) by (intros ->; contradiction).
    apply in_split in Hin. destruct Hin as (u & v & Huv).
    rewrite (app_removelast_last "."%char Ht), Huv.
    exists (x :: u), (v ++ [List.last t "."%char]).
    rewrite <- app_assoc. simpl. split; [reflexivity|]. split; [discriminate|].
    now destruct v.
  - intros (b & c & -> & Hb & Hc).
    destruct b as [|x u]; [contradiction|]. simpl.
    rewrite removelast_app by discriminate.
    rewrite existsb_app. apply orb_true_iff. right.
    destruct c; [contradiction|]. reflexivity.
Qed.

(** X23.  The email validator accepts exactly the texts of the form
    local@domain.tld: three non-empty parts, none holding white space
    or an at sign, put together with one at sign and a dot. *)
Theorem emailRegex_accepts (s : string) :
  BookingSchema.emailRegex_test s = true <->
  exists a b c,
    String.list_ascii_of_string s = a ++ "@"%char :: b ++ "."%char :: c /\
    a <> [] /\ b <> [] /\ c <> [] /\
    forallb BookingSchema.is_email_char (a ++ b ++ c) = true.
Proof.
  unfold BookingSchema.emailRegex_test.
  set (l := String.list_ascii_of_string s). split.
  - destruct (span_email_chars_spec l) as [Hl Ha].
    destruct (BookingSchema.span_email_chars l) as [a r]. simpl in Hl, Ha.
    destruct a as [|a0 a]; [discriminate|]. destruct r as [|at_ rest]; [discriminate|].
    rewrite !andb_true_iff. intros [[Hat Hrest] Hdot].
    apply is_at_eq in Hat. subst at_.
    apply inner_dot_spec in Hdot. destruct Hdot as (b & c & -> & Hb & Hc).
    exists (a0 :: a), b, c. split; [exact Hl|]. repeat split; try assumption; try discriminate.
    rewrite forallb_app in Hrest. apply andb_true_iff in Hrest. destruct Hrest as [Hfb Hfc].
    simpl in Hfc.
    rewrite !forallb_app. now rewrite Ha, Hfb, Hfc.
  - intros (a & b & c & -> & Ha & Hb & Hc & Hall).
    rewrite !forallb_app, !andb_true_iff in Hall. destruct Hall as (Hfa & Hfb & Hfc).
    rewrite span_email_chars_app by (assumption || reflexivity).
    destruct a as [|a0 a]; [contradiction|].
    rewrite !andb_true_iff. split; [split; [reflexivity|]|].
    + rewrite forallb_app. simpl. now rewrite Hfb, Hfc.
    + apply inner_dot_spec. eauto.
Qed.

(** X13.  The route accepts as a slug exactly the non-empty texts made
    of lowercase letters, digits and hyphens, with no hyphen at either
    end and no two hyphens in a row. *)
Theorem isValidSlug_accepts (s : string) :
  Route.isValidSlug s = true <->
  s <> "" /\
  all_chars (fun c => is_lower_alnum c || is_hyphen c) s = true /\
  starts_with_hyphen s = false /\ ends_with_hyphen s = false /\
  single_hyphens s = true.
Proof.
  rewrite isValidSlug_spec. unfold slug_format.
  rewrite !andb_true_iff, !negb_true_iff.
  destruct s; simpl; intuition (discriminate || auto).
Qed.

Lemma time_step_zero_pads_witness :
  let this := sample_event "6905f39ac1d4e5b6a7f80911" "Tech Meetup" "2025-11-20" "7:05" in
  exists e', EventSchema.time_step this (fields this) = EventSchema.Continue e' /\
             time e' = "07:05".
Proof.
  intros this.
  destruct (time_step_zero_pads this (fields this) ["7"%char] "0" "5")
    as [Hpads _]; try reflexivity.
  - left. reflexivity.
  - repeat constructor.
  - apply Hpads. vm_compute. split; discriminate.
Defined.

(** ** Saving an event: what is written, and when nothing is *)

Lemma Event_write_cases (isNew : bool) (e : IEvent) (w : World) :
  (EventSchema.accepted isNew e w /\
   EventSchema.write isNew e w =
     (Ok e, with_events (<[ev_id e := e]> (events w))
              (with_call (Call_write_Event (ev_id e)) w))) \/
  (exists t, EventSchema.write isNew e w
             = (Throw t, with_call (Call_write_Event (ev_id e)) w)).
Proof.
  unfold EventSchema.write, bind, EventSchema.accepted.
  destruct (outage w) as [t|] eqn:Hout.
  - rewrite (driver_down _ _ _ t Hout). right. eauto.
  - rewrite driver_up by assumption. cbn [id with_call events]. cbv zeta.
    destruct (bool_decide (is_Some (events w !! ev_id e))), isNew; simpl;
      try (right; eauto; fail);
      destruct (EventSchema.slug_taken (events w) e); simpl;
      try (right; eauto; fail); left; auto.
Qed.

(** X21.  A save of an event that fails writes nothing, and no save of
    an event touches the bookings. *)
Theorem event_failure_writes_nothing
    (Date_parse : string -> option Z) (this : Document IEvent) (w : World) :
  bookings (snd (EventSchema.save Date_parse this w)) = bookings w /\
  forall t, fst (EventSchema.save Date_parse this w) = Throw t ->
            events (snd (EventSchema.save Date_parse this w)) = events w.
Proof.
  unfold EventSchema.save.
  destruct (EventSchema.validate (fields this)); [simpl; auto|].
  destruct (EventSchema.preSave Date_parse this) as [e r].
  unfold bind, get_world.
  destruct (Event_write_cases (isNew this) (EventSchema.stamp (isNew this) (now w) e) w)
    as [[_ ->]|[t ->]]; simpl; split; auto; discriminate.
Qed.

Lemma event_failure_writes_nothing_witness :
  events (snd (EventSchema.save parses_nothing second_meetup world_with_meetup))
    = events world_with_meetup.
Proof.
  destruct (event_failure_writes_nothing parses_nothing second_meetup world_with_meetup)
    as [_ H].
  apply (H (Thrown_Error (DuplicateKey "slug_1"))). reflexivity.
Defined.
